(** * PID-Tag-Puller: tag classification engine and text extraction pipeline

    A shallow embedding of [src/tag_extractor/patterns.py],
    [src/tag_extractor/extractor.py], [src/pdf_processor/extractor.py],
    [src/csv_exporter/exporter.py] and the data flow of
    [src/gui/main_window.py].

    Python [str] values are modelled as [string]; the model covers texts over
    the ASCII range, where [str.isupper], [\d], [\w] and [\b] have the
    meaning written out in [Str] and [Re] below. *)

From Stdlib Require Import ZArith Ascii String List Bool Lia.
From Stdlib Require OrderedTypeEx.
From stdpp Require Import base list strings gmap sorting pretty.
Local Open Scope string_scope.

(** ** Python string operations used by the program *)
Module Str.

Definition code (a : ascii) : nat := nat_of_ascii a.

Definition in_range (lo hi : nat) (a : ascii) : bool :=
  (lo <=? code a)%nat && (code a <=? hi)%nat.

(** [c.isupper()], [c.islower()] on one ASCII character. *)
Definition is_upper_c (a : ascii) : bool := in_range 65 90 a.
Definition is_lower_c (a : ascii) : bool := in_range 97 122 a.
(** [\d] and [\w] of the [re] module on ASCII text. *)
Definition is_digit_c (a : ascii) : bool := in_range 48 57 a.
Definition is_word_c (a : ascii) : bool :=
  is_upper_c a || is_lower_c a || is_digit_c a || Ascii.eqb a "_".

Fixpoint all (p : ascii -> bool) (s : string) : bool :=
  match s with
  | EmptyString => true
  | String a s' => p a && all p s'
  end.

Fixpoint any (p : ascii -> bool) (s : string) : bool :=
  match s with
  | EmptyString => false
  | String a s' => p a || any p s'
  end.

(** [sum(p(c) for c in s)] *)
Fixpoint count (p : ascii -> bool) (s : string) : nat :=
  match s with
  | EmptyString => 0
  | String a s' => (if p a then 1 else 0) + count p s'
  end.

(** [s.isupper()]: no lower-case character and at least one upper-case one. *)
Definition isupper (s : string) : bool :=
  negb (any is_lower_c s) && any is_upper_c s.

(** [s.startswith(p)] *)
Definition startswith (p s : string) : bool := String.prefix p s.

(** [sub in s] *)
Fixpoint contains (sub s : string) : bool :=
  String.prefix sub s ||
  match s with
  | EmptyString => false
  | String _ s' => contains sub s'
  end.

(** [s.split(sep)] for a one-character separator. *)
Fixpoint split (sep : ascii) (s : string) : list string :=
  match s with
  | EmptyString => [EmptyString]
  | String a s' =>
      if Ascii.eqb a sep then EmptyString :: split sep s'
      else match split sep s' with
           | h :: t => String a h :: t
           | [] => [String a EmptyString]
           end
  end.

(** [s[:n]] *)
Fixpoint take (n : nat) (s : string) : string :=
  match n, s with
  | S k, String a s' => String a (take k s')
  | _, _ => EmptyString
  end.

(** [sep.join(l)] *)
Fixpoint join (sep : string) (l : list string) : string :=
  match l with
  | [] => EmptyString
  | [x] => x
  | x :: r => x +:+ sep +:+ join sep r
  end.

(** [sorted(l)] on strings: ascending by code point, lexicographically. *)
Definition le (x y : string) : Prop := String.leb x y = true.

#[global] Instance le_dec (x y : string) : Decision (le x y).
Proof. unfold le. apply _. Defined.

Definition sorted (l : list string) : list string := merge_sort le l.

End Str.

(** ** The fragment of Python's [re] used by [patterns.py]

    Every pattern of the program is an alternation of sequences of greedy
    repetitions of a one-character class, with the zero-width assertions
    [\b], [^] and [$].  The matcher is the backtracking one of [re]: a
    repetition first takes as many characters as it can and gives them back
    one at a time. *)
Module Re.

Inductive item : Type :=
| Cls (c : ascii -> bool) (lo : nat) (hi : option nat)
| WordB
| Bol
| Eol.

Definition branch : Type := list item.
Definition regex : Type := list branch.

(** A literal string, character by character. *)
Fixpoint lit (s : string) : branch :=
  match s with
  | EmptyString => []
  | String a s' => Cls (Ascii.eqb a) 1 (Some 1) :: lit s'
  end.

Definition upper_AZ : ascii -> bool := Str.in_range 65 90.
Definition upper_AG : ascii -> bool := Str.in_range 65 71.
Definition alnum_AZ09 (a : ascii) : bool := Str.in_range 65 90 a || Str.in_range 48 57 a.

(** Number of leading characters of [s] in class [c], at most [cap]. *)
Fixpoint span (c : ascii -> bool) (cap : option nat) (s : string) : nat :=
  match s with
  | EmptyString => 0
  | String a s' =>
      if c a then
        match cap with
        | Some 0 => 0
        | Some (S k) => S (span c (Some k) s')
        | None => S (span c None s')
        end
      else 0
  end.

(** Consume [n] characters; the first component is the character just
    before the new position ([None] at the start of the text). *)
Fixpoint skip (n : nat) (prev : option ascii) (s : string) : option ascii * string :=
  match n, s with
  | S k, String a s' => skip k (Some a) s'
  | _, _ => (prev, s)
  end.

(** Try the continuation after [n], [n-1], ..., [lo] characters. *)
Fixpoint retry (k : option ascii -> string -> option string)
    (prev : option ascii) (s : string) (lo n : nat) : option string :=
  if (n <? lo)%nat then None
  else
    match k (skip n prev s).1 (skip n prev s).2 with
    | Some rest => Some rest
    | None =>
        match n with
        | 0 => None
        | S n' => retry k prev s lo n'
        end
    end.

Definition word_before (prev : option ascii) : bool :=
  match prev with
  | Some a => Str.is_word_c a
  | None => false
  end.

Definition word_after (s : string) : bool :=
  match s with
  | String a _ => Str.is_word_c a
  | EmptyString => false
  end.

(** [$] without MULTILINE: at the end, or just before a final newline. *)
Definition at_end (s : string) : bool :=
  match s with
  | EmptyString => true
  | String a EmptyString => Ascii.eqb a "010"
  | _ => false
  end.

(** Match a sequence at the current position; the result is the text left
    after the match. *)
Fixpoint m_items (its : branch) : option ascii -> string -> option string :=
  match its with
  | [] => fun _ s => Some s
  | Cls c lo hi :: r => fun prev s => retry (m_items r) prev s lo (span c hi s)
  | WordB :: r => fun prev s =>
      if xorb (word_before prev) (word_after s) then m_items r prev s else None
  | Bol :: r => fun prev s =>
      match prev with
      | None => m_items r prev s
      | Some _ => None
      end
  | Eol :: r => fun prev s =>
      if at_end s then m_items r prev s else None
  end.

(** Alternation: the first branch that matches wins. *)
Fixpoint m_regex (re : regex) (prev : option ascii) (s : string) : option string :=
  match re with
  | [] => None
  | b :: re' =>
      match m_items b prev s with
      | Some rest => Some rest
      | None => m_regex re' prev s
      end
  end.

(** The text matched, given what is left. *)
Definition matched (s rest : string) : string :=
  Str.take (String.length s - String.length rest) s.

(** [pattern.match(text)]: a match anchored at the start of the text. *)
Definition match_ (re : regex) (text : string) : option string :=
  match m_regex re None text with
  | Some rest => Some (matched text rest)
  | None => None
  end.

(** [pattern.findall(text)] for patterns without groups: the
    non-overlapping matches, scanning left to right.  [pending] counts the
    characters of the last match still to be passed over. *)
Fixpoint scan (re : regex) (prev : option ascii) (pending : nat) (s : string)
    : list string :=
  match s with
  | EmptyString => []
  | String a s' =>
      match pending with
      | S k => scan re (Some a) k s'
      | 0 =>
          match m_regex re prev s with
          | Some rest =>
              matched s rest :: scan re (Some a) (String.length (matched s rest) - 1) s'
          | None => scan re (Some a) 0 s'
          end
      end
  end.

Definition findall (re : regex) (text : string) : list string :=
  scan re None 0 text.

End Re.

(** ** [patterns.py] *)
Module Patterns.
Import Re.
Local Open Scope list_scope.

Definition digits (lo : nat) (hi : option nat) : item := Cls Str.is_digit_c lo hi.

(** [STORM_P\d{4}-\d+] *)
Definition PUMP_PATTERN_STORM : regex :=
  [lit "STORM_P" ++ [digits 4 (Some 4)] ++ lit "-" ++ [digits 1 None]].
(** [\bP\d{4}\b] *)
Definition PUMP_PATTERN_SHORT : regex :=
  [[WordB] ++ lit "P" ++ [digits 4 (Some 4); WordB]].
(** [ROCK TRAP \d+] *)
Definition ROCK_TRAP_PATTERN : regex :=
  [lit "ROCK TRAP " ++ [digits 1 None]].
(** [VLV\d{4}] *)
Definition VALVE_PATTERN : regex :=
  [lit "VLV" ++ [digits 4 (Some 4)]].
(** [\b[A-Z]{2}-[A-Z0-9]{2,4}-[A-Z0-9]{2,4}-\d{4}\b] *)
Definition INSTRUMENT_PATTERN : regex :=
  [[WordB; Cls upper_AZ 2 (Some 2)] ++ lit "-" ++
   [Cls alnum_AZ09 2 (Some 4)] ++ lit "-" ++
   [Cls alnum_AZ09 2 (Some 4)] ++ lit "-" ++
   [digits 4 (Some 4); WordB]].
(** [\b[A-Z]{3,4}\d{4}\b] *)
Definition GENERIC_TAG_PATTERN : regex :=
  [[WordB; Cls upper_AZ 3 (Some 4); digits 4 (Some 4); WordB]].
(** [\b[A-Z]{2}\d{1,3}\b] *)
Definition VENDOR_EQUIPMENT_PATTERN : regex :=
  [[WordB; Cls upper_AZ 2 (Some 2); digits 1 (Some 3); WordB]].

(** A whole-line phrase [^phrase$]. *)
Definition phrase (s : string) : branch := [Bol] ++ lit s ++ [Eol].

Definition EXCLUDE_PATTERNS : list regex :=
  [ [[Bol] ++ lit "ST" ++ [digits 4 (Some 4); Eol]];
    [[Bol] ++ lit "P" ++ [digits 4 (Some 4)] ++ lit "-" ++ [digits 1 None] ++
       lit "-" ++ [digits 1 None; Eol]];
    [[Bol] ++ lit "P" ++ [digits 4 (Some 4)] ++ lit "-" ++ [digits 1 None; Eol]];
    [[Bol] ++ lit "NOTE " ++ [digits 1 None; Eol]];
    [[Bol; Cls upper_AG 1 (Some 1); Eol]];
    [[Bol; digits 1 (Some 2); Eol]];
    [phrase "EXISTING"; phrase "PROPOSED"; phrase "WATER CANNON"; phrase "WATER HYDRANT"];
    [phrase "SHEET No."; phrase "DRAWING STATUS"; phrase "REVISION"];
    [phrase "COPYRIGHT"; phrase "APPROVAL"; phrase "DRAWN BY"; phrase "CHECKED BY"] ].

(** The pattern table, in the insertion order of the dict. *)
Definition COMPILED_PATTERNS : list (string * regex) :=
  [ ("pump_storm", PUMP_PATTERN_STORM);
    ("pump_short", PUMP_PATTERN_SHORT);
    ("rock_trap", ROCK_TRAP_PATTERN);
    ("valve", VALVE_PATTERN);
    ("instrument", INSTRUMENT_PATTERN);
    ("generic_tag", GENERIC_TAG_PATTERN);
    ("vendor", VENDOR_EQUIPMENT_PATTERN) ].

Definition COMPILED_EXCLUDE : list regex := EXCLUDE_PATTERNS.

(** [any(pattern.match(text) for pattern in COMPILED_EXCLUDE)] *)
Definition is_excluded (text : string) : bool :=
  existsb (fun pattern => bool_decide (is_Some (match_ pattern text))) COMPILED_EXCLUDE.

(** [is_likely_tag]; the quotient [upper / len > 0.5] of two integers with
    [0 < len <= 50] is compared exactly as [2 * upper > len]. *)
Definition is_likely_tag (text : string) : bool :=
  if bool_decide (text = EmptyString) || (50 <? String.length text)%nat then false
  else if Str.isupper text || (String.length text <? 2 * Str.count Str.is_upper_c text)%nat
  then true
  else false.

End Patterns.

(** ** [tag_extractor/extractor.py] *)
Module Extractor.
Import Patterns.
Local Open Scope list_scope.

(** The instance state: [self.text], [self.tags], [self.tag_counts]
    (a [Counter], whose missing keys read as 0). *)
Record TagExtractor : Type := {
  text : string;
  tags : list string;
  tag_counts : gmap string nat
}.

(** [TagExtractor.__init__] *)
Definition init (t : string) : TagExtractor :=
  {| text := t; tags := []; tag_counts := ∅ |}.

(** [counter[key] += 1] *)
Definition counter_incr (key : string) (c : gmap string nat) : gmap string nat :=
  <[key := S (default 0 (c !! key))]> c.

(** [_filter_short_pump_tags] *)
Definition _filter_short_pump_tags (tags : list string) : list string := tags.

(** The body of the inner loop: the guard, then the two updates. *)
Definition visit_match (st : list string * gmap string nat) (m : string)
    : list string * gmap string nat :=
  if is_likely_tag m && negb (is_excluded m)
  then (st.1 ++ [m], counter_incr m st.2)
  else st.

(** The body of the outer loop over [COMPILED_PATTERNS.items()]. *)
Definition visit_pattern (txt : string) (st : list string * gmap string nat)
    (entry : string * Re.regex) : list string * gmap string nat :=
  fold_left visit_match (Re.findall entry.2 txt) st.

(** [set(l)], listed; every use of it in the program is sorted or counted
    afterwards. *)
Definition unique (l : list string) : list string :=
  elements (list_to_set l : gset string).

(** [extract_all_tags]: the returned list and the instance afterwards.
    [self.tags] is rebound to the empty list; [self.tag_counts] is the
    counter the instance already holds. *)
Definition extract_all_tags (deduplicate : bool) (self : TagExtractor)
    : list string * TagExtractor :=
  let st := fold_left (visit_pattern (text self)) COMPILED_PATTERNS ([], tag_counts self) in
  let tags' := _filter_short_pump_tags st.1 in
  let self' := {| text := text self; tags := tags'; tag_counts := st.2 |} in
  (if deduplicate then Str.sorted (unique tags') else Str.sorted tags', self').

(** [get_tag_counts] *)
Definition get_tag_counts (self : TagExtractor) : gmap string nat := tag_counts self.

(** The dictionary with the five fixed keys built by [get_tags_by_type]. *)
Record Categorized : Type := {
  pumps : list string;
  valves : list string;
  instruments : list string;
  equipment : list string;
  other : list string
}.

Definition empty_categorized : Categorized :=
  {| pumps := []; valves := []; instruments := []; equipment := []; other := [] |}.

(** The body of the loop of [get_tags_by_type]: the if/elif chain. *)
Definition visit_tag (c : Categorized) (tag : string) : Categorized :=
  if Str.startswith "STORM_P" tag
     || (Str.startswith "P" tag && (String.length tag =? 5)%nat)
  then {| pumps := pumps c ++ [tag]; valves := valves c;
          instruments := instruments c; equipment := equipment c; other := other c |}
  else if Str.startswith "VLV" tag
  then {| pumps := pumps c; valves := valves c ++ [tag];
          instruments := instruments c; equipment := equipment c; other := other c |}
  else if Str.contains "-" tag && (3 <=? length (Str.split "-" tag))%nat
  then {| pumps := pumps c; valves := valves c;
          instruments := instruments c ++ [tag]; equipment := equipment c; other := other c |}
  else if Str.contains "TRAP" tag || Str.contains "TANK" tag
  then {| pumps := pumps c; valves := valves c;
          instruments := instruments c; equipment := equipment c ++ [tag]; other := other c |}
  else {| pumps := pumps c; valves := valves c;
          instruments := instruments c; equipment := equipment c; other := other c ++ [tag] |}.

Definition sort_each (c : Categorized) : Categorized :=
  {| pumps := Str.sorted (pumps c); valves := Str.sorted (valves c);
     instruments := Str.sorted (instruments c); equipment := Str.sorted (equipment c);
     other := Str.sorted (other c) |}.

(** [get_tags_by_type] *)
Definition get_tags_by_type (self : TagExtractor) : Categorized :=
  sort_each (fold_left visit_tag (unique (tags self)) empty_categorized).

Record Summary : Type := {
  total_unique : nat;
  total_instances : nat;
  n_pumps : nat;
  n_valves : nat;
  n_instruments : nat;
  n_equipment : nat;
  n_other : nat
}.

(** [get_summary] *)
Definition get_summary (self : TagExtractor) : Summary :=
  let tags_by_type := get_tags_by_type self in
  {| total_unique := length (unique (tags self));
     total_instances := length (tags self);
     n_pumps := length (pumps tags_by_type);
     n_valves := length (valves tags_by_type);
     n_instruments := length (instruments tags_by_type);
     n_equipment := length (equipment tags_by_type);
     n_other := length (other tags_by_type) |}.

End Extractor.

(** ** [pdf_processor/extractor.py]

    The file system, the two PDF libraries and the recognition engine are
    the environment of the pipeline.  A path resolves to nothing, to a file
    that neither library can open, or to a document, which both libraries
    read as the same sequence of pages.  A page carries what the calls made
    on it return: its native text layer and the recognition output of its
    2x rendering under each of the two configurations. *)
Module Pdf.
Local Open Scope list_scope.

Definition nl : string := String "010" EmptyString.

Record Page : Type := {
  native_text : option string;   (* pdfplumber: page.extract_text() *)
  ocr_block : string;            (* image_to_string(img, '--oem 3 --psm 6') *)
  ocr_sparse : string            (* image_to_string(img, '--oem 3 --psm 11') *)
}.

Inductive file : Type :=
| Unparsable
| Document (pages : list Page).

Record World : Type := {
  files : string -> option file;
  engine_available : bool
}.

(** The errors of the pipeline, under the names of the specification:
    [FileNotFoundError], the parser's failure to open the file, and
    [pytesseract.TesseractNotFoundError]. *)
Inductive error : Type :=
| DocumentNotFound
| DocumentCorrupt
| ExtractionUnavailable.

Inductive result (A : Type) : Type :=
| Ok (a : A)
| Raise (e : error).
Arguments Ok {A} a.
Arguments Raise {A} e.

(** An exception leaves the enclosing call at once. *)
#[global] Instance result_bind : MBind result := fun A B k r =>
  match r with
  | Ok a => k a
  | Raise e => Raise e
  end.

Record PDFExtractor : Type := { pdf_path : string }.

(** [PDFExtractor.__init__]: only the existence of the path is checked. *)
Definition init (w : World) (path : string) : result PDFExtractor :=
  match files w path with
  | None => Raise DocumentNotFound
  | Some _ => Ok {| pdf_path := path |}
  end.

(** [pdfplumber.open(self.pdf_path)] and [fitz.open(self.pdf_path)] *)
Definition open (w : World) (self : PDFExtractor) : result (list Page) :=
  match files w (pdf_path self) with
  | None => Raise DocumentNotFound
  | Some Unparsable => Raise DocumentCorrupt
  | Some (Document pages) => Ok pages
  end.

(** [pytesseract.image_to_string]: fails when the engine is not installed. *)
Definition image_to_string (w : World) (output : string) : result string :=
  if engine_available w then Ok output else Raise ExtractionUnavailable.

(** Truth value of a string or [None]. *)
Definition truthy (o : option string) : bool :=
  match o with
  | Some (String _ _) => true
  | _ => false
  end.

(** [_extract_text_standard] *)
Definition _extract_text_standard (w : World) (self : PDFExtractor) : result string :=
  pages ← open w self;
  let all_text :=
    fold_left (fun acc page =>
                 if truthy (native_text page)
                 then acc ++ [default EmptyString (native_text page)]
                 else acc) pages [] in
  Ok (Str.join nl all_text).

(** The loop of [_extract_text_ocr] over the pages. *)
Fixpoint ocr_pages (w : World) (pages : list Page) (all_text : list string)
    : result (list string) :=
  match pages with
  | [] => Ok all_text
  | page :: rest =>
      page_text ← image_to_string w (ocr_block page);
      page_text_sparse ← image_to_string w (ocr_sparse page);
      let page_text := (page_text +:+ nl +:+ page_text_sparse)%string in
      ocr_pages w rest
        (if truthy (Some page_text) then all_text ++ [page_text] else all_text)
  end.

(** [_extract_text_ocr] *)
Definition _extract_text_ocr (w : World) (self : PDFExtractor) : result string :=
  doc ← open w self;
  all_text ← ocr_pages w doc [];
  Ok (Str.join nl all_text).

(** [extract_text] *)
Definition extract_text (w : World) (self : PDFExtractor)
    (use_ocr : bool) (min_text_threshold : Z) : result string :=
  text_extracted ← _extract_text_standard w self;
  if (min_text_threshold <=? Z.of_nat (String.length text_extracted))%Z
  then Ok text_extracted
  else if use_ocr then
    ocr_text ← _extract_text_ocr w self;
    Ok (text_extracted +:+ nl +:+ ocr_text)%string
  else Ok text_extracted.

(** [_extract_text_by_page_standard] *)
Definition _extract_text_by_page_standard (w : World) (self : PDFExtractor)
    : result (list string) :=
  pages ← open w self;
  Ok (fold_left (fun pages_text page =>
                   pages_text ++
                   [if truthy (native_text page)
                    then default EmptyString (native_text page)
                    else EmptyString]) pages []).

(** The loop of [_extract_text_by_page_ocr]. *)
Fixpoint ocr_by_page (w : World) (pages : list Page) (pages_text : list string)
    : result (list string) :=
  match pages with
  | [] => Ok pages_text
  | page :: rest =>
      page_text ← image_to_string w (ocr_sparse page);
      ocr_by_page w rest
        (pages_text ++ [if truthy (Some page_text) then page_text else EmptyString])
  end.

(** [_extract_text_by_page_ocr] *)
Definition _extract_text_by_page_ocr (w : World) (self : PDFExtractor)
    : result (list string) :=
  doc ← open w self;
  ocr_by_page w doc [].

(** [extract_text_by_page] *)
Definition extract_text_by_page (w : World) (self : PDFExtractor) (use_ocr : bool)
    : result (list string) :=
  if use_ocr then _extract_text_by_page_ocr w self
  else _extract_text_by_page_standard w self.

(** [get_page_count] *)
Definition get_page_count (w : World) (self : PDFExtractor) : result nat :=
  pages ← open w self;
  Ok (length pages).

(** The native text of a document: the non-empty page texts, in page order,
    joined by newlines. *)
Definition native_of (pages : list Page) : string :=
  Str.join nl
    (flat_map (fun page => match native_text page with
                           | Some (String a s) => [String a s]
                           | _ => []
                           end) pages).

(** The recognition output of a document: per page the two passes joined by
    a newline, the pages joined by newlines. *)
Definition ocr_of (pages : list Page) : string :=
  Str.join nl (map (fun page => (ocr_block page +:+ nl +:+ ocr_sparse page)%string) pages).

(** A one-page drawing at a fixed path, for the examples. *)
Definition sample_page : Page :=
  {| native_text := Some "VLV1001";
     ocr_block := "VLV1001 P1021";
     ocr_sparse := "P1021" |}.

Definition sample_world (f : file) (engine : bool) : World :=
  {| files := fun path => if String.eqb path "drawing.pdf" then Some f else None;
     engine_available := engine |}.

Definition sample_extractor : PDFExtractor := {| pdf_path := "drawing.pdf" |}.

End Pdf.

(** ** The specification's vocabulary

    The definitions of this module follow the words of the specification;
    the claims compare them with the code above. *)
Module Spec.
Import Re Patterns Extractor.
Local Open Scope list_scope.

(** The strings a sequence of pattern items denotes; the zero-width
    assertions denote the empty string. *)
Definition within (hi : option nat) (n : nat) : Prop :=
  match hi with
  | Some h => (n <= h)%nat
  | None => True
  end.

Fixpoint InLang (its : branch) (m : string) : Prop :=
  match its with
  | [] => m = EmptyString
  | Cls c lo hi :: r =>
      exists b m' : string,
        m = (b +:+ m')%string /\ Str.all c b = true /\
        (lo <= String.length b)%nat /\ within hi (String.length b) /\ InLang r m'
  | _ :: r => InLang r m
  end.

(** Syntactic measures of a sequence of items: whether it ends with [$],
    whether it is [^] followed by classes and a final [$], the characters
    its classes admit, the least length of a string it denotes, and the most
    occurrences of a character in such a string ([None]: unbounded). *)
Fixpoint ends_with_eol (its : branch) : bool :=
  match its with
  | [] => false
  | Eol :: [] => true
  | _ :: r => ends_with_eol r
  end.

Fixpoint body_eol (its : branch) : bool :=
  match its with
  | Eol :: [] => true
  | Cls _ _ _ :: r => body_eol r
  | _ => false
  end.

Definition anchored (its : branch) : bool :=
  match its with
  | Bol :: r => body_eol r
  | _ => false
  end.

Definition alphabet (its : branch) (a : ascii) : bool :=
  existsb (fun it => match it with
                     | Cls c _ _ => c a
                     | _ => false
                     end) its.

Fixpoint min_length (its : branch) : nat :=
  match its with
  | [] => 0
  | Cls _ lo _ :: r => lo + min_length r
  | _ :: r => min_length r
  end.

Fixpoint bound_char (x : ascii) (its : branch) : option nat :=
  match its with
  | [] => Some 0
  | Cls c _ hi :: r =>
      if c x then
        match hi, bound_char x r with
        | Some h, Some n => Some (h + n)
        | _, _ => None
        end
      else bound_char x r
  | _ :: r => bound_char x r
  end.

(** Whole-string match of a rule: the string is denoted by one of the
    alternatives of the rule. *)
Definition whole_string_match (rule : regex) (m : string) : Prop :=
  exists b : branch, b ∈ rule /\ InLang b m.

(** Exclusion check: some configured exclusion rule matches the whole string. *)
Definition excluded (m : string) : Prop :=
  exists rule : regex, rule ∈ EXCLUDE_PATTERNS /\ whole_string_match rule m.

(** No line break in the string. *)
Definition no_newline (m : string) : Prop :=
  Str.all (fun a => negb (Ascii.eqb a "010")) m = true.

(** Shape heuristic: length at most 50, and fully upper-case or more than
    half of the characters upper-case letters. *)
Definition shape_heuristic (m : string) : Prop :=
  (String.length m <= 50)%nat /\
  (Str.isupper m = true \/ (String.length m < 2 * Str.count Str.is_upper_c m)%nat).

(** The raw matches of a text, pattern after pattern, and the guard of the
    scanning loop. *)
Definition raw_matches (txt : string) : list string :=
  flat_map (fun entry : string * regex => findall entry.2 txt) COMPILED_PATTERNS.

Definition accepts (m : string) : bool := is_likely_tag m && negb (is_excluded m).

Definition accepted_occurrences (txt : string) : list string :=
  filter (fun m => accepts m = true) (raw_matches txt).

(** The five categories and the fixed-priority chain of rules. *)
Inductive category : Type := Pump | Valve | Instrument | Equipment | Other.

#[global] Instance category_eq_dec : EqDecision category.
Proof. solve_decision. Defined.

Definition pump_rule (tag : string) : bool :=
  Str.startswith "STORM_P" tag || (Str.startswith "P" tag && (String.length tag =? 5)%nat).
Definition valve_rule (tag : string) : bool := Str.startswith "VLV" tag.
Definition instrument_rule (tag : string) : bool :=
  Str.contains "-" tag && (3 <=? length (Str.split "-" tag))%nat.
Definition equipment_rule (tag : string) : bool :=
  Str.contains "TRAP" tag || Str.contains "TANK" tag.

Definition chain : list ((string -> bool) * category) :=
  [ (pump_rule, Pump); (valve_rule, Valve);
    (instrument_rule, Instrument); (equipment_rule, Equipment) ].

(** First match wins; the default applies when no rule matches. *)
Fixpoint first_match (rules : list ((string -> bool) * category)) (dflt : category)
    (tag : string) : category :=
  match rules with
  | [] => dflt
  | (rule, label) :: rest => if rule tag then label else first_match rest dflt tag
  end.

Definition category_of (tag : string) : category := first_match chain Other tag.

(** The list of a category in the result of [get_tags_by_type]. *)
Definition field (c : category) (by_type : Categorized) : list string :=
  match c with
  | Pump => pumps by_type
  | Valve => valves by_type
  | Instrument => instruments by_type
  | Equipment => equipment by_type
  | Other => other by_type
  end.

Definition all_fields (by_type : Categorized) : list string :=
  pumps by_type ++ valves by_type ++ instruments by_type ++
  equipment by_type ++ other by_type.

End Spec.

(** ** Orders on the program's values *)
Module Order.

(** Strictly ascending order of [str]: [x < y]. *)
Definition lt (x y : string) : Prop := String.ltb x y = true.

(** Number of occurrences of a string in a list: [l.count(k)]. *)
Definition occurrences (k : string) (l : list string) : nat :=
  length (filter (fun m => m = k) l).

End Order.

(** ** Telling two patterns apart

    Decidable tests, by enumeration of the 256 characters, under which no
    string is denoted by both of two sequences of items. *)
Module Separation.
Import Re Spec.
Local Open Scope list_scope.

Definition forall_bool (p : bool -> bool) : bool := p false && p true.

Definition forall_ascii (p : ascii -> bool) : bool :=
  forall_bool (fun b0 => forall_bool (fun b1 => forall_bool (fun b2 =>
  forall_bool (fun b3 => forall_bool (fun b4 => forall_bool (fun b5 =>
  forall_bool (fun b6 => forall_bool (fun b7 =>
    p (Ascii b0 b1 b2 b3 b4 b5 b6 b7))))))))).

Definition disjoint (c1 c2 : ascii -> bool) : bool :=
  forall_ascii (fun a => negb (c1 a && c2 a)).

Definition subset (c1 c2 : ascii -> bool) : bool :=
  forall_ascii (fun a => implb (c1 a) (c2 a)).

(** The greatest length of a denoted string ([None]: unbounded). *)
Fixpoint max_length (its : branch) : option nat :=
  match its with
  | [] => Some 0
  | Cls _ _ hi :: r =>
      match hi, max_length r with
      | Some h, Some n => Some (h + n)
      | _, _ => None
      end
  | _ :: r => max_length r
  end.

(** The least number of characters of class [c'] in a denoted string. *)
Fixpoint min_in (c' : ascii -> bool) (its : branch) : nat :=
  match its with
  | [] => 0
  | Cls c lo _ :: r => (if subset c c' then lo else 0) + min_in c' r
  | _ :: r => min_in c' r
  end.

(** Some compulsory item of [its] takes its characters outside [A]. *)
Definition needs_outside (A : ascii -> bool) (its : branch) : bool :=
  existsb (fun it => match it with
                     | Cls c lo _ => (1 <=? lo)%nat && disjoint c A
                     | _ => false
                     end) its.

(** Some compulsory item of [its] takes its characters inside [A]. *)
Definition needs_inside (A : ascii -> bool) (its : branch) : bool :=
  existsb (fun it => match it with
                     | Cls c lo _ => (1 <=? lo)%nat && subset c A
                     | _ => false
                     end) its.

Definition below (n : option nat) (m : nat) : bool :=
  match n with
  | Some k => (k <? m)%nat
  | None => false
  end.

Definition apart (b e : branch) : bool :=
  below (max_length b) (min_length e)
  || below (max_length e) (min_length b)
  || needs_outside (alphabet e) b
  || needs_outside (alphabet b) e
  || below (bound_char "-" e) (min_in (Ascii.eqb "-") b).

End Separation.

(** ** More sample documents *)
Module PdfSamples.
Import Pdf.

(** A page without text layer on which the engine recognises nothing. *)
Definition blank_page : Page :=
  {| native_text := None; ocr_block := EmptyString; ocr_sparse := EmptyString |}.

Definition three_pages : list Page := [sample_page; blank_page; sample_page].

End PdfSamples.

(** ** [csv_exporter/exporter.py]

    [csv.writer] with its default dialect: fields separated by commas, a
    field holding a comma, a double quote or a line break written between
    double quotes with its double quotes doubled, a row of one empty field
    written as two double quotes, rows ended by CR LF.  The files are a map
    from paths to contents; directories and the failures of the operating
    system are outside the model. *)
Module Csv.
Local Open Scope list_scope.

Definition dquote : ascii := "034".
Definition cr : ascii := "013".
Definition lf : ascii := "010".
Definition crlf : string := String cr (String lf EmptyString).

Definition special (a : ascii) : bool :=
  Ascii.eqb a "," || Ascii.eqb a dquote || Ascii.eqb a cr || Ascii.eqb a lf.

Fixpoint double_quotes (f : string) : string :=
  match f with
  | EmptyString => EmptyString
  | String a f' =>
      if Ascii.eqb a dquote then String dquote (String dquote (double_quotes f'))
      else String a (double_quotes f')
  end.

Definition write_field (f : string) : string :=
  if Str.any special f
  then String dquote (double_quotes f +:+ String dquote EmptyString)
  else f.

(** [writer.writerow(row)]: the text appended to the file. *)
Definition writerow (row : list string) : string :=
  match row with
  | [EmptyString] => String dquote (String dquote crlf)
  | _ => Str.join "," (map write_field row) +:+ crlf
  end.

(** [CSVExporter.export_tags] *)
Definition export_tags (fs : gmap string string) (tags : list string)
    (output_path : string) (include_header : bool) (header_name : string)
    : gmap string string :=
  let csvfile := if include_header then writerow [header_name] else EmptyString in
  let csvfile := fold_left (fun buf tag => buf +:+ writerow [tag]) tags csvfile in
  <[output_path := csvfile]> fs.

(** Order of the (tag, count) pairs, as Python compares tuples. *)
Definition item_le (x y : string * nat) : Prop :=
  String.ltb x.1 y.1 = true \/ (x.1 = y.1 /\ x.2 <= y.2).

#[global] Instance item_le_dec (x y : string * nat) : Decision (item_le x y).
Proof. unfold item_le. apply _. Defined.

(** [CSVExporter.export_tags_with_counts]; [str(count)] is the decimal
    numeral. *)
Definition export_tags_with_counts (fs : gmap string string)
    (tag_counts : gmap string nat) (output_path : string) (include_header : bool)
    : gmap string string :=
  let csvfile := if include_header then writerow ["Tag"; "Count"]%string else EmptyString in
  let sorted_tags := merge_sort item_le (map_to_list tag_counts) in
  let csvfile :=
    fold_left (fun buf item => buf +:+ writerow [item.1; pretty item.2]) sorted_tags csvfile in
  <[output_path := csvfile]> fs.

(** The lines of a file holding one unquoted field per row. *)
Definition lines (fields : list string) : string :=
  Str.join EmptyString (map (fun f => (f +:+ crlf)%string) fields).

End Csv.

(** ** [gui/main_window.py]: the data of the window

    The window is its attributes [pdf_path], [extracted_tags],
    [tag_summary] (empty until the first extraction), the text of the
    status label and of the results box, and the state of the export
    button.  The worker is run to its end; dialogs only show a message. *)
Module Gui.
Import Extractor.
Local Open Scope list_scope.

Record MainWindow : Type := {
  pdf_path : option string;
  extracted_tags : list string;
  tag_summary : option Summary;
  status_label : string;
  results_text : string;
  export_enabled : bool
}.

(** [MainWindow.__init__] *)
Definition init : MainWindow :=
  {| pdf_path := None; extracted_tags := []; tag_summary := None;
     status_label := "Ready"; results_text := EmptyString; export_enabled := false |}.

Definition set_status (text : string) (self : MainWindow) : MainWindow :=
  {| pdf_path := pdf_path self; extracted_tags := extracted_tags self;
     tag_summary := tag_summary self; status_label := text;
     results_text := results_text self; export_enabled := export_enabled self |}.

Definition set_results (text : string) (self : MainWindow) : MainWindow :=
  {| pdf_path := pdf_path self; extracted_tags := extracted_tags self;
     tag_summary := tag_summary self; status_label := status_label self;
     results_text := text; export_enabled := export_enabled self |}.

Definition line (label : string) (n : nat) : string :=
  (label +:+ pretty n +:+ Pdf.nl)%string.

(** The text that [_display_results] puts in the results box. *)
Definition display_text (tags : list string) (summary : Summary) : string :=
  let summary_text :=
    ("Summary:" +:+ Pdf.nl +:+
     line "- Total unique tags: " (total_unique summary) +:+
     line "- Total instances: " (total_instances summary) +:+
     line "- Pumps: " (n_pumps summary) +:+
     line "- Valves: " (n_valves summary) +:+
     line "- Instruments: " (n_instruments summary) +:+
     line "- Equipment: " (n_equipment summary) +:+
     line "- Other: " (n_other summary) +:+
     Pdf.nl +:+ "Tags (showing first 50):" +:+ Pdf.nl)%string in
  let preview_tags := take 50 tags in
  let text := fold_left (fun buf tag => (buf +:+ tag +:+ Pdf.nl)%string) preview_tags summary_text in
  if (50 <? length tags)%nat
  then (text +:+ Pdf.nl +:+ "... and " +:+ pretty (length tags - 50) +:+ " more tags")%string
  else text.

(** [_display_results]; called only after [tag_summary] is set. *)
Definition _display_results (self : MainWindow) : MainWindow :=
  match tag_summary self with
  | Some summary => set_results (display_text (extracted_tags self) summary) self
  | None => self
  end.

(** [_extraction_worker]: every exception of the pipeline is caught and
    handled alike, also the one raised when no path is set. *)
Definition _extraction_worker (w : Pdf.World) (self : MainWindow) : MainWindow :=
  let self := set_status "Extracting text from PDF..." self in
  match (path ← match pdf_path self with
                 | Some path => Pdf.Ok path
                 | None => Pdf.Raise Pdf.DocumentNotFound
                 end;
         pdf_extractor ← Pdf.init w path;
         Pdf.extract_text w pdf_extractor true 200) with
  | Pdf.Ok text =>
      let self := set_status "Identifying tags..." self in
      let run := extract_all_tags true (Extractor.init text) in
      let self :=
        {| pdf_path := pdf_path self; extracted_tags := run.1;
           tag_summary := Some (get_summary run.2); status_label := status_label self;
           results_text := results_text self; export_enabled := export_enabled self |} in
      let self := _display_results self in
      let self :=
        {| pdf_path := pdf_path self; extracted_tags := extracted_tags self;
           tag_summary := tag_summary self; status_label := status_label self;
           results_text := results_text self; export_enabled := true |} in
      set_status ("Extraction complete! Found "
                  +:+ pretty (total_unique (get_summary run.2)) +:+ " unique tags")%string self
  | Pdf.Raise _ => set_status "Error during extraction" self
  end.

(** [_extract_tags]: nothing runs before a file is selected. *)
Definition _extract_tags (w : Pdf.World) (self : MainWindow) : MainWindow :=
  match pdf_path self with
  | None => self
  | Some _ => _extraction_worker w self
  end.

(** Two windows with the sample drawing selected: a fresh one, and one
    that shows the results of an earlier extraction. *)
Definition sample_window : MainWindow :=
  {| pdf_path := Some "drawing.pdf"%string; extracted_tags := [];
     tag_summary := None; status_label := "Ready"; results_text := EmptyString;
     export_enabled := false |}.

Definition used_window : MainWindow :=
  {| pdf_path := Some "drawing.pdf"%string; extracted_tags := ["KD1"%string];
     tag_summary := None; status_label := "Ready"; results_text := "old";
     export_enabled := true |}.

End Gui.

(** * Properties *)

(** ** The examples of the repository's tests *)
Module Tests.
Import Re Patterns.

Example valve_findall :
  findall VALVE_PATTERN "VLV1001 and VLV2041" = ["VLV1001"; "VLV2041"].
Proof. vm_compute. reflexivity. Qed.

Example storm_findall :
  findall PUMP_PATTERN_STORM "STORM_P1001-1 and STORM_P1011-1"
  = ["STORM_P1001-1"; "STORM_P1011-1"].
Proof. vm_compute. reflexivity. Qed.

Example excluded_examples :
  is_excluded "ST0008" = true /\ is_excluded "NOTE 1" = true /\
  is_excluded "P1011-1" = true /\ is_excluded "VLV1001" = false.
Proof. vm_compute. auto. Qed.

Example short_pump_in_sheet_number :
  findall PUMP_PATTERN_SHORT "P1011-1" = ["P1011"].
Proof. vm_compute. reflexivity. Qed.

Example vendor_findall :
  findall VENDOR_EQUIPMENT_PATTERN "KD1 KD22 KD1234 xKD5" = ["KD1"; "KD22"].
Proof. vm_compute. reflexivity. Qed.

Example instrument_and_generic_findall :
  findall INSTRUMENT_PATTERN "see QD-1E-84-1101." = ["QD-1E-84-1101"] /\
  findall GENERIC_TAG_PATTERN "FIT1001 PDIT2345 ABCDE1234 PSV12345" = ["FIT1001"; "PDIT2345"].
Proof. vm_compute. auto. Qed.

(** [$] also matches just before a final line break. *)
Example excluded_before_final_newline :
  is_excluded (String.append "ST0008" (String "010" EmptyString)) = true.
Proof. vm_compute. reflexivity. Qed.

Example likely_tag_examples :
  is_likely_tag "STORM_P1001-1" = true /\ is_likely_tag "" = false /\
  is_likely_tag "Note" = false /\ is_likely_tag "1234" = false.
Proof. vm_compute. auto. Qed.

End Tests.

Module ExtractorTests.
Import Extractor.

Example run_once :
  (extract_all_tags true (init "VLV1001 P1011-1 QD-1E-84-1101 VLV1001 ROCK TRAP 1 KD1")).1
  = ["KD1"; "P1011"; "QD-1E-84-1101"; "ROCK TRAP 1"; "VLV1001"]%list.
Proof. vm_compute. reflexivity. Qed.

(** A valve tag is found by the valve pattern and again by the generic
    pattern, so each occurrence is accepted twice. *)
Example run_once_all :
  (extract_all_tags false (init "VLV1001 P1011-1 VLV1001")).1
  = ["P1011"; "VLV1001"; "VLV1001"; "VLV1001"; "VLV1001"]%list.
Proof. vm_compute. reflexivity. Qed.

Example by_type_once :
  get_tags_by_type
    (extract_all_tags true (init "VLV1001 P1011-1 QD-1E-84-1101 VLV1001 ROCK TRAP 1 KD1")).2
  = {| pumps := ["P1011"]; valves := ["VLV1001"]; instruments := ["QD-1E-84-1101"];
       equipment := ["ROCK TRAP 1"]; other := ["KD1"] |}%list.
Proof. vm_compute. reflexivity. Qed.

End ExtractorTests.

(** ** Strings *)
Module StrFacts.
Import Str.

Lemma app_cons (a : ascii) (s t : string) : String a s +:+ t = String a (s +:+ t).
Proof. reflexivity. Qed.

Lemma app_nil_l (t : string) : EmptyString +:+ t = t.
Proof. reflexivity. Qed.

Lemma length_app (s t : string) :
  String.length (s +:+ t) = String.length s + String.length t.
Proof.
  induction s as [|a s IH]; [reflexivity|].
  rewrite app_cons. simpl. now rewrite IH.
Qed.

Lemma app_nonempty_r (s : string) (a : ascii) (t : string) :
  exists b u, s +:+ String a t = String b u.
Proof. destruct s as [|b s]; [exists a, t | exists b, (s +:+ String a t)]; reflexivity. Qed.

End StrFacts.

(** ** The text extraction pipeline *)
Module PdfFacts.
Import Pdf StrFacts.
Local Open Scope list_scope.

Lemma bind_ok {A B : Type} (a : A) (k : A -> result B) : (Ok a ≫= k) = k a.
Proof. reflexivity. Qed.

Lemma bind_raise {A B : Type} (e : error) (k : A -> result B) : (Raise e ≫= k) = Raise e.
Proof. reflexivity. Qed.

Lemma open_document w self pages :
  files w (pdf_path self) = Some (Document pages) -> open w self = Ok pages.
Proof. unfold open. now intros ->. Qed.

Lemma open_unparsable w self :
  files w (pdf_path self) = Some Unparsable -> open w self = Raise DocumentCorrupt.
Proof. unfold open. now intros ->. Qed.

Lemma native_loop (pages : list Page) (acc : list string) :
  fold_left (fun acc page =>
               if truthy (native_text page)
               then acc ++ [default EmptyString (native_text page)]
               else acc) pages acc
  = acc ++ flat_map (fun page => match native_text page with
                                 | Some (String a s) => [String a s]
                                 | _ => []
                                 end) pages.
Proof.
  revert acc. induction pages as [|p pages IH]; intros acc; simpl.
  - now rewrite app_nil_r.
  - rewrite IH. destruct (native_text p) as [[|a s]|]; simpl;
      rewrite <- ?app_assoc; reflexivity.
Qed.

Lemma standard_ok w self pages :
  files w (pdf_path self) = Some (Document pages) ->
  _extract_text_standard w self = Ok (native_of pages).
Proof.
  intros Hf. unfold _extract_text_standard.
  rewrite (open_document _ _ _ Hf), bind_ok, native_loop. reflexivity.
Qed.

Lemma truthy_combined (s t : string) : truthy (Some (s +:+ nl +:+ t)%string) = true.
Proof. destruct s; reflexivity. Qed.

Lemma ocr_pages_available w pages acc :
  engine_available w = true ->
  ocr_pages w pages acc
  = Ok (acc ++ map (fun page => (ocr_block page +:+ nl +:+ ocr_sparse page)%string) pages).
Proof.
  intros He. revert acc. induction pages as [|p pages IH]; intros acc; cbn [ocr_pages map].
  - now rewrite app_nil_r.
  - unfold image_to_string. rewrite He, !bind_ok, truthy_combined, IH.
    now rewrite <- app_assoc.
Qed.

Lemma ocr_pages_unavailable w p pages acc :
  engine_available w = false ->
  ocr_pages w (p :: pages) acc = Raise ExtractionUnavailable.
Proof. intros He. simpl. unfold image_to_string. now rewrite He. Qed.

Lemma ocr_ok w self pages :
  files w (pdf_path self) = Some (Document pages) ->
  engine_available w = true ->
  _extract_text_ocr w self = Ok (ocr_of pages).
Proof.
  intros Hf He. unfold _extract_text_ocr.
  rewrite (open_document _ _ _ Hf), bind_ok, (ocr_pages_available _ _ _ He), bind_ok.
  reflexivity.
Qed.

Lemma combined_not_ocr (native ocr : string) : (native +:+ nl +:+ ocr)%string <> ocr.
Proof.
  intros E. apply (f_equal String.length) in E.
  rewrite !length_app in E. simpl in E. lia.
Qed.

Lemma by_page_standard_loop (pages : list Page) (acc : list string) :
  fold_left (fun pages_text page =>
               pages_text ++
               [if truthy (native_text page)
                then default EmptyString (native_text page)
                else EmptyString]) pages acc
  = acc ++ map (fun page => default EmptyString (native_text page)) pages.
Proof.
  revert acc. induction pages as [|p pages IH]; intros acc; simpl.
  - now rewrite app_nil_r.
  - rewrite IH, <- app_assoc. destruct (native_text p) as [[|a s]|]; reflexivity.
Qed.

Lemma ocr_by_page_available w pages acc :
  engine_available w = true ->
  ocr_by_page w pages acc = Ok (acc ++ map ocr_sparse pages).
Proof.
  intros He. revert acc. induction pages as [|p pages IH]; intros acc; simpl.
  - now rewrite app_nil_r.
  - unfold image_to_string. rewrite He, bind_ok, IH, <- app_assoc.
    destruct (ocr_sparse p); reflexivity.
Qed.

End PdfFacts.

(** ** Claims about the text extraction pipeline *)
Module PdfClaims.
Import Pdf StrFacts PdfFacts.
Local Open Scope list_scope.
Local Open Scope Z_scope.

(** C3: on a document, [extract_text] returns the native text when its
    length reaches the threshold, and also when it does not but recognition
    is off; when the native text is short and recognition is on (and the
    engine runs), it returns the native text, a newline and the recognition
    output, which is never the recognition output alone. *)
Theorem extract_text_cases (w : World) (self : PDFExtractor) (pages : list Page)
    (use_ocr : bool) (min_text_threshold : Z) :
  files w (pdf_path self) = Some (Document pages) ->
  (min_text_threshold <= Z.of_nat (String.length (native_of pages)) ->
     extract_text w self use_ocr min_text_threshold = Ok (native_of pages)) /\
  (Z.of_nat (String.length (native_of pages)) < min_text_threshold ->
     use_ocr = false ->
     extract_text w self use_ocr min_text_threshold = Ok (native_of pages)) /\
  (Z.of_nat (String.length (native_of pages)) < min_text_threshold ->
     use_ocr = true -> engine_available w = true ->
     _extract_text_ocr w self = Ok (ocr_of pages) /\
     extract_text w self use_ocr min_text_threshold
       = Ok (native_of pages +:+ nl +:+ ocr_of pages)%string /\
     (native_of pages +:+ nl +:+ ocr_of pages)%string <> ocr_of pages).
Proof.
  intros Hf. unfold extract_text. rewrite (standard_ok _ _ _ Hf), bind_ok.
  split; [|split].
  - intros Hle. apply Z.leb_le in Hle. now rewrite Hle.
  - intros Hlt ->. apply Z.leb_gt in Hlt. now rewrite Hlt.
  - intros Hlt -> He. apply Z.leb_gt in Hlt.
    rewrite Hlt, (ocr_ok _ _ _ Hf He), bind_ok.
    split; [reflexivity|]. split; [reflexivity|]. apply combined_not_ocr.
Qed.

Lemma extract_text_cases_witness :
  files (sample_world (Document [sample_page]) true) (pdf_path sample_extractor)
    = Some (Document [sample_page]) /\
  extract_text (sample_world (Document [sample_page]) true) sample_extractor true 200
    = Ok (String.append "VLV1001" (String.append nl (String.append "VLV1001 P1021" (String.append nl "P1021")))).
Proof.
  split; [reflexivity|].
  apply (extract_text_cases (sample_world (Document [sample_page]) true)
           sample_extractor [sample_page] true 200 eq_refl);
    [vm_compute; reflexivity | reflexivity | reflexivity].
Defined.

(** C6, as the code has it: construction fails with [DocumentNotFound]
    exactly when the path does not resolve, and otherwise succeeds without
    opening the file; a file that cannot be parsed is reported as
    [DocumentCorrupt] by every later call, with no text returned. *)
Theorem init_checks_path_only (w : World) (path : string) :
  (files w path = None -> init w path = Raise DocumentNotFound) /\
  (forall f, files w path = Some f -> init w path = Ok {| pdf_path := path |}) /\
  (files w path = Some Unparsable ->
     forall self, init w path = Ok self ->
     (forall use_ocr thr, extract_text w self use_ocr thr = Raise DocumentCorrupt) /\
     (forall use_ocr, extract_text_by_page w self use_ocr = Raise DocumentCorrupt) /\
     get_page_count w self = Raise DocumentCorrupt).
Proof.
  unfold init. repeat split.
  - now intros ->.
  - now intros f ->.
  - rewrite H in H0. injection H0 as <-.
    unfold extract_text, _extract_text_standard. now rewrite open_unparsable.
  - rewrite H in H0. injection H0 as <-. intros [|]; simpl;
      unfold _extract_text_by_page_ocr, _extract_text_by_page_standard;
      now rewrite open_unparsable.
  - rewrite H in H0. injection H0 as <-.
    unfold get_page_count. now rewrite open_unparsable.
Qed.

Lemma init_checks_path_only_witness :
  files (sample_world Unparsable true) "drawing.pdf" = Some Unparsable /\
  init (sample_world Unparsable true) "drawing.pdf" = Ok sample_extractor /\
  extract_text (sample_world Unparsable true) sample_extractor true 200
    = Raise DocumentCorrupt /\
  files (sample_world Unparsable true) "missing.pdf" = None /\
  init (sample_world Unparsable true) "missing.pdf" = Raise DocumentNotFound.
Proof.
  pose proof (init_checks_path_only (sample_world Unparsable true) "drawing.pdf")
    as (_ & Hok & Hbad).
  pose proof (init_checks_path_only (sample_world Unparsable true) "missing.pdf")
    as (Hnone & _).
  split; [reflexivity|]. split; [apply (Hok Unparsable eq_refl)|].
  split; [apply (Hbad eq_refl sample_extractor (Hok Unparsable eq_refl))|].
  split; [reflexivity | apply (Hnone eq_refl)].
Defined.

(** C6 as stated fails: a file that cannot be parsed passes construction. *)
Lemma init_accepts_unparsable :
  files (sample_world Unparsable true) "drawing.pdf" = Some Unparsable /\
  init (sample_world Unparsable true) "drawing.pdf" = Ok sample_extractor /\
  init (sample_world Unparsable true) "drawing.pdf" <> Raise DocumentCorrupt.
Proof. repeat split. discriminate. Qed.

(** C7, as the code has it: with the engine unavailable, [extract_text]
    returns the native text when recognition is not needed (threshold
    reached, or recognition off); when it is needed on a document with at
    least one page the call fails with [ExtractionUnavailable] and returns
    nothing.  Whatever the engine, a returned text is not empty when the
    document has native text. *)
Theorem extract_text_engine_unavailable (w : World) (self : PDFExtractor)
    (pages : list Page) (use_ocr : bool) (min_text_threshold : Z) :
  files w (pdf_path self) = Some (Document pages) ->
  (engine_available w = false ->
     (min_text_threshold <= Z.of_nat (String.length (native_of pages)) \/ use_ocr = false ->
        extract_text w self use_ocr min_text_threshold = Ok (native_of pages)) /\
     (Z.of_nat (String.length (native_of pages)) < min_text_threshold ->
        use_ocr = true -> pages <> [] ->
        extract_text w self use_ocr min_text_threshold = Raise ExtractionUnavailable)) /\
  (forall s, extract_text w self use_ocr min_text_threshold = Ok s ->
     native_of pages <> EmptyString -> s <> EmptyString).
Proof.
  intros Hf. unfold extract_text. rewrite (standard_ok _ _ _ Hf), bind_ok.
  split; [intros He; split|].
  - intros [Hle | ->].
    + apply Z.leb_le in Hle. now rewrite Hle.
    + now destruct (_ <=? _).
  - intros Hlt -> Hne. apply Z.leb_gt in Hlt. rewrite Hlt.
    unfold _extract_text_ocr. rewrite (open_document _ _ _ Hf), bind_ok.
    destruct pages as [|p pages]; [congruence|].
    now rewrite (ocr_pages_unavailable _ _ _ _ He).
  - intros s Hs Hne.
    destruct (_ <=? _); [congruence|].
    destruct use_ocr; [|congruence].
    destruct (_extract_text_ocr w self) as [ocr|e]; [|discriminate].
    rewrite bind_ok in Hs. injection Hs as <-.
    destruct (native_of pages); [congruence | discriminate].
Qed.

Lemma extract_text_engine_unavailable_witness :
  files (sample_world (Document [sample_page]) false) (pdf_path sample_extractor)
    = Some (Document [sample_page]) /\
  extract_text (sample_world (Document [sample_page]) false) sample_extractor true 200
    = Raise ExtractionUnavailable /\
  extract_text (sample_world (Document [sample_page]) false) sample_extractor true 5
    = Ok "VLV1001"%string.
Proof.
  pose proof (extract_text_engine_unavailable (sample_world (Document [sample_page]) false)
                sample_extractor [sample_page] true 200 eq_refl) as (H200 & _).
  pose proof (extract_text_engine_unavailable (sample_world (Document [sample_page]) false)
                sample_extractor [sample_page] true 5 eq_refl) as (H5 & _).
  split; [reflexivity|]. split.
  - apply (H200 eq_refl); [vm_compute; reflexivity | reflexivity | discriminate].
  - apply (H5 eq_refl). left. vm_compute. discriminate.
Defined.

(** C7 as stated fails: with the engine unavailable and native text below
    the threshold, the native text is not returned. *)
Lemma extract_text_does_not_degrade :
  engine_available (sample_world (Document [sample_page]) false) = false /\
  native_of [sample_page] = "VLV1001"%string /\
  extract_text (sample_world (Document [sample_page]) false) sample_extractor true 200
    = Raise ExtractionUnavailable /\
  extract_text (sample_world (Document [sample_page]) false) sample_extractor true 200
    <> Ok (native_of [sample_page]).
Proof. repeat split. discriminate. Qed.

(** C9: on a document, with the engine running when recognition is asked
    for, [extract_text_by_page] returns one string per page, as many as
    [get_page_count] reports: the sparse-configuration recognition output of
    each page when [use_ocr] is set, the native text of each page (empty for
    a page without text) otherwise. *)
Theorem extract_text_by_page_length (w : World) (self : PDFExtractor)
    (pages : list Page) (use_ocr : bool) :
  files w (pdf_path self) = Some (Document pages) ->
  (use_ocr = true -> engine_available w = true) ->
  exists l : list string,
    extract_text_by_page w self use_ocr = Ok l /\
    get_page_count w self = Ok (length l) /\
    l = map (fun page => if use_ocr then ocr_sparse page
                         else default EmptyString (native_text page)) pages.
Proof.
  intros Hf He. eexists. split; [|split]; [| |reflexivity].
  - unfold extract_text_by_page, _extract_text_by_page_ocr, _extract_text_by_page_standard.
    rewrite (open_document _ _ _ Hf), !bind_ok. destruct use_ocr.
    + now rewrite (ocr_by_page_available _ _ _ (He eq_refl)).
    + now rewrite by_page_standard_loop.
  - unfold get_page_count. rewrite (open_document _ _ _ Hf), bind_ok.
    now rewrite length_map.
Qed.

Lemma extract_text_by_page_length_witness :
  files (sample_world (Document [sample_page; sample_page]) true) (pdf_path sample_extractor)
    = Some (Document [sample_page; sample_page]) /\
  exists l : list string,
    extract_text_by_page (sample_world (Document [sample_page; sample_page]) true)
      sample_extractor true = Ok l /\
    get_page_count (sample_world (Document [sample_page; sample_page]) true)
      sample_extractor = Ok (length l) /\
    l = ["P1021"; "P1021"]%string.
Proof.
  split; [reflexivity|].
  apply (extract_text_by_page_length
           (sample_world (Document [sample_page; sample_page]) true)
           sample_extractor [sample_page; sample_page] true eq_refl (fun _ => eq_refl)).
Defined.

End PdfClaims.

(** ** The tag classification engine *)
Module ExtractorFacts.
Import Patterns Extractor Spec.
Local Open Scope list_scope.

Lemma visit_match_fold (ms : list string) (st : list string * gmap string nat) :
  fold_left visit_match ms st
  = (st.1 ++ filter (fun m => accepts m = true) ms,
     fold_left (fun c m => counter_incr m c) (filter (fun m => accepts m = true) ms) st.2).
Proof.
  revert st. induction ms as [|m ms IH]; intros [t c]; simpl.
  - now rewrite app_nil_r.
  - rewrite IH, filter_cons. unfold visit_match.
    change (is_likely_tag m && negb (is_excluded m)) with (accepts m).
    destruct (decide (accepts m = true)) as [E|E].
    + rewrite E. simpl. now rewrite <- app_assoc.
    + apply not_true_is_false in E. rewrite E. reflexivity.
Qed.

Lemma visit_pattern_fold (txt : string) (ps : list (string * Re.regex))
    (st : list string * gmap string nat) :
  fold_left (visit_pattern txt) ps st
  = (st.1 ++ filter (fun m => accepts m = true)
               (flat_map (fun entry : string * Re.regex => Re.findall entry.2 txt) ps),
     fold_left (fun c m => counter_incr m c)
       (filter (fun m => accepts m = true)
          (flat_map (fun entry : string * Re.regex => Re.findall entry.2 txt) ps)) st.2).
Proof.
  revert st. induction ps as [|p ps IH]; intros [t c]; simpl.
  - now rewrite app_nil_r.
  - rewrite IH. unfold visit_pattern at 1 2. rewrite visit_match_fold. simpl.
    rewrite filter_app, fold_left_app, <- app_assoc. reflexivity.
Qed.

(** The instance after a call: the tag list is rebuilt from the text, the
    counter is the old one with every accepted occurrence added. *)
Lemma extract_all_tags_state (deduplicate : bool) (self : TagExtractor) :
  (extract_all_tags deduplicate self).2
  = {| text := text self;
       tags := accepted_occurrences (text self);
       tag_counts := fold_left (fun c m => counter_incr m c)
                       (accepted_occurrences (text self)) (tag_counts self) |}.
Proof.
  unfold extract_all_tags. rewrite visit_pattern_fold. reflexivity.
Qed.

Lemma extract_all_tags_result (deduplicate : bool) (self : TagExtractor) :
  (extract_all_tags deduplicate self).1
  = if deduplicate then Str.sorted (unique (accepted_occurrences (text self)))
    else Str.sorted (accepted_occurrences (text self)).
Proof.
  unfold extract_all_tags. rewrite visit_pattern_fold. reflexivity.
Qed.

Lemma counter_incr_lookup (m k : string) (c : gmap string nat) :
  default 0 (counter_incr m c !! k)
  = default 0 (c !! k) + (if decide (m = k) then 1 else 0).
Proof.
  unfold counter_incr. destruct (decide (m = k)) as [->|Hne].
  - rewrite lookup_insert_eq. simpl. lia.
  - rewrite lookup_insert_ne by exact Hne. lia.
Qed.

Lemma counter_fold_lookup (ms : list string) (c : gmap string nat) (k : string) :
  default 0 (fold_left (fun c m => counter_incr m c) ms c !! k)
  = default 0 (c !! k) + length (filter (fun m => m = k) ms).
Proof.
  revert c. induction ms as [|m ms IH]; intros c; simpl; [lia|].
  rewrite IH, counter_incr_lookup, filter_cons.
  destruct (decide (m = k)); simpl; lia.
Qed.

Lemma sorted_perm (l : list string) : Str.sorted l ≡ₚ l.
Proof. apply merge_sort_Permutation. Qed.

Lemma elem_of_sorted (x : string) (l : list string) : x ∈ Str.sorted l <-> x ∈ l.
Proof. now rewrite sorted_perm. Qed.

Lemma elem_of_unique (x : string) (l : list string) : x ∈ unique l <-> x ∈ l.
Proof. unfold unique. rewrite elem_of_elements. apply elem_of_list_to_set. Qed.

Lemma NoDup_unique (l : list string) : NoDup (unique l).
Proof. unfold unique. apply NoDup_elements. Qed.

(** One step of the categorisation loop appends the tag to the list of its
    category and to no other. *)
Lemma visit_tag_field (c : Categorized) (tag : string) (X : category) :
  field X (visit_tag c tag)
  = field X c ++ (if decide (category_of tag = X) then [tag] else []).
Proof.
  unfold visit_tag, category_of. simpl.
  unfold pump_rule, valve_rule, instrument_rule, equipment_rule.
  destruct (_ || _); [destruct X; simpl; now rewrite ?app_nil_r|].
  destruct (Str.startswith "VLV" tag); [destruct X; simpl; now rewrite ?app_nil_r|].
  destruct (_ && _); [destruct X; simpl; now rewrite ?app_nil_r|].
  destruct (_ || _); destruct X; simpl; now rewrite ?app_nil_r.
Qed.

Lemma visit_tag_fold (l : list string) (c : Categorized) (X : category) :
  field X (fold_left visit_tag l c)
  = field X c ++ filter (fun tag => category_of tag = X) l.
Proof.
  revert c. induction l as [|tag l IH]; intros c; simpl.
  - now rewrite app_nil_r.
  - rewrite IH, visit_tag_field, filter_cons, <- app_assoc.
    destruct (decide (category_of tag = X)); reflexivity.
Qed.

Lemma field_sort_each (c : Categorized) (X : category) :
  field X (sort_each c) = Str.sorted (field X c).
Proof. destruct X; reflexivity. Qed.

Lemma field_get_tags_by_type (self : TagExtractor) (X : category) :
  field X (get_tags_by_type self)
  = Str.sorted (filter (fun tag => category_of tag = X) (unique (tags self))).
Proof.
  unfold get_tags_by_type. rewrite field_sort_each, visit_tag_fold.
  destruct X; reflexivity.
Qed.

(** Splitting a list by category loses and repeats nothing. *)
Lemma split_by_category (l : list string) :
  filter (fun tag => category_of tag = Pump) l ++
  filter (fun tag => category_of tag = Valve) l ++
  filter (fun tag => category_of tag = Instrument) l ++
  filter (fun tag => category_of tag = Equipment) l ++
  filter (fun tag => category_of tag = Other) l ≡ₚ l.
Proof.
  induction l as [|tag l IH]; [reflexivity|].
  rewrite !filter_cons.
  destruct (category_of tag); simpl.
  - now rewrite IH.
  - rewrite <- Permutation_middle. now rewrite IH.
  - rewrite app_assoc, <- Permutation_middle, <- app_assoc. now rewrite IH.
  - rewrite 2!app_assoc, <- Permutation_middle, <- 2!app_assoc. now rewrite IH.
  - rewrite 3!app_assoc, <- Permutation_middle, <- 3!app_assoc. now rewrite IH.
Qed.

Lemma all_fields_perm (self : TagExtractor) :
  all_fields (get_tags_by_type self) ≡ₚ unique (tags self).
Proof.
  unfold all_fields.
  change (pumps (get_tags_by_type self)) with (field Pump (get_tags_by_type self)).
  change (valves (get_tags_by_type self)) with (field Valve (get_tags_by_type self)).
  change (instruments (get_tags_by_type self)) with (field Instrument (get_tags_by_type self)).
  change (equipment (get_tags_by_type self)) with (field Equipment (get_tags_by_type self)).
  change (other (get_tags_by_type self)) with (field Other (get_tags_by_type self)).
  rewrite !field_get_tags_by_type, !sorted_perm. apply split_by_category.
Qed.

Lemma elem_of_field (self : TagExtractor) (tag : string) (X : category) :
  tag ∈ field X (get_tags_by_type self) <-> tag ∈ tags self /\ category_of tag = X.
Proof.
  rewrite field_get_tags_by_type, elem_of_sorted, list_elem_of_filter, elem_of_unique.
  tauto.
Qed.

End ExtractorFacts.

(** ** Claims about the accumulator, the categories and the summary *)
Module ExtractorClaims.
Import Patterns Extractor Spec ExtractorFacts.
Local Open Scope list_scope.

(** C8: the short-pump pass returns its input unchanged, so the tag list an
    extraction leaves behind is exactly the list of the raw matches that
    passed the guard of the scanning loop, in scanning order. *)
Theorem filter_short_pump_tags_identity :
  (forall tags : list string, _filter_short_pump_tags tags = tags) /\
  (forall (deduplicate : bool) (self : TagExtractor),
     tags (extract_all_tags deduplicate self).2
     = filter (fun m => accepts m = true) (raw_matches (text self))).
Proof.
  split; [reflexivity|].
  intros d self. now rewrite extract_all_tags_state.
Qed.

(** C10: on a fresh instance the three queries succeed: the count mapping
    is empty, the five category lists are empty and the seven counts of the
    summary are zero. *)
Theorem fresh_instance_queries (t : string) :
  get_tag_counts (init t) = ∅ /\
  get_tags_by_type (init t) = empty_categorized /\
  get_summary (init t)
  = {| total_unique := 0; total_instances := 0; n_pumps := 0; n_valves := 0;
       n_instruments := 0; n_equipment := 0; n_other := 0 |}.
Proof. repeat split. Qed.

(** C2: after an extraction the five category lists hold every unique
    accepted tag exactly once between them, the summary's [total_unique] is
    the sum of the five category counts, and [total_instances] is the length
    of the full list of accepted occurrences. *)
Theorem by_type_partition_and_summary (deduplicate : bool) (self : TagExtractor) :
  NoDup (all_fields (get_tags_by_type (extract_all_tags deduplicate self).2)) /\
  (forall tag : string,
     tag ∈ all_fields (get_tags_by_type (extract_all_tags deduplicate self).2)
     <-> tag ∈ accepted_occurrences (text self)) /\
  (forall (tag : string) (c c' : category),
     tag ∈ field c (get_tags_by_type (extract_all_tags deduplicate self).2) ->
     tag ∈ field c' (get_tags_by_type (extract_all_tags deduplicate self).2) ->
     c = c') /\
  total_unique (get_summary (extract_all_tags deduplicate self).2)
  = n_pumps (get_summary (extract_all_tags deduplicate self).2)
    + n_valves (get_summary (extract_all_tags deduplicate self).2)
    + n_instruments (get_summary (extract_all_tags deduplicate self).2)
    + n_equipment (get_summary (extract_all_tags deduplicate self).2)
    + n_other (get_summary (extract_all_tags deduplicate self).2) /\
  total_unique (get_summary (extract_all_tags deduplicate self).2)
  = size (list_to_set (accepted_occurrences (text self)) : gset string) /\
  total_instances (get_summary (extract_all_tags deduplicate self).2)
  = length (accepted_occurrences (text self)).
Proof.
  rewrite extract_all_tags_state.
  set (self' := {| text := text self; tags := accepted_occurrences (text self);
                   tag_counts := _ |}).
  pose proof (all_fields_perm self') as Hperm.
  split; [|split; [|split; [|split; [|split]]]].
  - rewrite Hperm. apply NoDup_unique.
  - intros tag. now rewrite Hperm, elem_of_unique.
  - intros tag c c' Hc Hc'. apply elem_of_field in Hc, Hc'. destruct Hc, Hc'. congruence.
  - apply Permutation_length in Hperm. unfold all_fields in Hperm.
    rewrite !length_app in Hperm. unfold get_summary.
    cbn [total_unique n_pumps n_valves n_instruments n_equipment n_other]. lia.
  - reflexivity.
  - reflexivity.
Qed.

Lemma by_type_partition_and_summary_witness :
  "VLV1001"%string
    ∈ field Valve (get_tags_by_type (extract_all_tags true (init "VLV1001 P1021")).2) /\
  (forall c : category,
     "VLV1001"%string
       ∈ field c (get_tags_by_type (extract_all_tags true (init "VLV1001 P1021")).2) ->
     Valve = c) /\
  total_unique (get_summary (extract_all_tags true (init "VLV1001 P1021")).2) = 2 /\
  total_instances (get_summary (extract_all_tags true (init "VLV1001 P1021")).2) = 3.
Proof.
  pose proof (by_type_partition_and_summary true (init "VLV1001 P1021"))
    as (_ & _ & Hone & _ & _ & _).
  assert ("VLV1001"%string
            ∈ field Valve (get_tags_by_type (extract_all_tags true (init "VLV1001 P1021")).2))
    as Hin.
  { assert (field Valve (get_tags_by_type (extract_all_tags true (init "VLV1001 P1021")).2)
            = ["VLV1001"%string]) as -> by (vm_compute; reflexivity).
    apply list_elem_of_here. }
  split; [exact Hin|]. split; [intros c Hc; exact (Hone _ _ _ Hin Hc)|].
  split; vm_compute; reflexivity.
Defined.

(** X19: the list of tags is rebuilt by every call, so the returned list,
    the tag list of the instance and the summary are the same after a second
    call as after the first. *)
Lemma second_call_same_tags (d1 d2 : bool) (self : TagExtractor) :
  tags (extract_all_tags d2 (extract_all_tags d1 self).2).2
  = tags (extract_all_tags d1 self).2 /\
  (extract_all_tags d2 (extract_all_tags d1 self).2).1 = (extract_all_tags d2 self).1 /\
  get_summary (extract_all_tags d2 (extract_all_tags d1 self).2).2
  = get_summary (extract_all_tags d1 self).2.
Proof.
  rewrite !extract_all_tags_result, !extract_all_tags_state. repeat split.
Qed.

(** X20: the counter is not rebuilt: after a second call on the same
    instance every count is twice what it was after the first. *)
Lemma second_call_adds_counts (d1 d2 : bool) (t k : string) :
  default 0 (get_tag_counts (extract_all_tags d2 (extract_all_tags d1 (init t)).2).2 !! k)
  = 2 * default 0 (get_tag_counts (extract_all_tags d1 (init t)).2 !! k).
Proof.
  rewrite !extract_all_tags_state. unfold get_tag_counts.
  cbn [text tags tag_counts init].
  rewrite !counter_fold_lookup, lookup_empty. simpl. lia.
Qed.

(** C1, on the text ["P1021"]: the first call counts the tag once, the
    second call on the same instance leaves the count at two, while the
    summary is the same after both calls. *)
Theorem second_call_doubles_counts :
  get_tag_counts (extract_all_tags true (init "P1021")).2 = {[ "P1021"%string := 1 ]} /\
  get_tag_counts (extract_all_tags true (extract_all_tags true (init "P1021")).2).2
  = {[ "P1021"%string := 2 ]} /\
  get_tag_counts (extract_all_tags true (extract_all_tags true (init "P1021")).2).2
  <> get_tag_counts (extract_all_tags true (init "P1021")).2 /\
  get_summary (extract_all_tags true (extract_all_tags true (init "P1021")).2).2
  = get_summary (extract_all_tags true (init "P1021")).2.
Proof.
  split; [vm_compute; reflexivity|].
  split; [vm_compute; reflexivity|].
  split; [|vm_compute; reflexivity].
  intros E. apply (f_equal (fun c : gmap string nat => c !! "P1021"%string)) in E.
  vm_compute in E. discriminate.
Qed.

End ExtractorClaims.

(** ** The matcher and the language of a pattern *)
Module ReFacts.
Import Str Re Spec StrFacts.
Local Open Scope list_scope.

Lemma app_empty_r (s : string) : (s +:+ EmptyString)%string = s.
Proof. induction s as [|a s IH]; [reflexivity|]. now rewrite app_cons, IH. Qed.

Lemma app_assoc_str (s t u : string) : ((s +:+ t) +:+ u)%string = (s +:+ (t +:+ u))%string.
Proof. induction s as [|a s IH]; [reflexivity|]. now rewrite !app_cons, IH. Qed.

Lemma all_app (p : ascii -> bool) (s t : string) :
  all p (s +:+ t) = all p s && all p t.
Proof.
  induction s as [|a s IH]; [reflexivity|].
  rewrite app_cons. simpl. now rewrite IH, andb_assoc.
Qed.

Lemma count_app (p : ascii -> bool) (s t : string) :
  count p (s +:+ t) = count p s + count p t.
Proof.
  induction s as [|a s IH]; [reflexivity|].
  rewrite app_cons. simpl. rewrite IH. lia.
Qed.

Lemma all_impl (p q : ascii -> bool) (s : string) :
  (forall a, p a = true -> q a = true) -> all p s = true -> all q s = true.
Proof.
  intros Hpq. induction s as [|a s IH]; simpl; [reflexivity|].
  intros [Ha Hs]%andb_prop. now rewrite (Hpq a Ha), IH.
Qed.

Lemma count_le_length (p : ascii -> bool) (s : string) : count p s <= String.length s.
Proof. induction s as [|a s IH]; simpl; [lia|]. destruct (p a); lia. Qed.

Lemma count_none (p q : ascii -> bool) (s : string) :
  (forall a, p a = true -> q a = false) -> all p s = true -> count q s = 0.
Proof.
  intros Hpq. induction s as [|a s IH]; simpl; [reflexivity|].
  intros [Ha Hs]%andb_prop. now rewrite (Hpq a Ha), IH.
Qed.

Lemma take_app_length (m rest : string) :
  take (String.length (m +:+ rest) - String.length rest) (m +:+ rest) = m.
Proof.
  rewrite length_app.
  replace (String.length m + String.length rest - String.length rest)
    with (String.length m) by lia.
  induction m as [|a m IH].
  - rewrite app_nil_l. now destruct rest.
  - rewrite app_cons. cbn [String.length take]. now rewrite IH.
Qed.

Lemma matched_app (m rest : string) : matched (m +:+ rest) rest = m.
Proof. apply take_app_length. Qed.

(** *** [skip] and [span] *)

Lemma skip_split (n : nat) (prev : option ascii) (s : string) :
  n <= String.length s ->
  s = (take n s +:+ (skip n prev s).2)%string /\ String.length (take n s) = n.
Proof.
  revert prev s. induction n as [|n IH]; intros prev s Hn.
  - destruct s; split; reflexivity.
  - destruct s as [|a s]; simpl in Hn; [lia|].
    destruct (IH (Some a) s) as [E L]; [lia|]. simpl.
    rewrite app_cons. split; [now rewrite <- E | now rewrite L].
Qed.

Lemma skip_app (b m : string) (prev : option ascii) :
  (skip (String.length b) prev (b +:+ m)).2 = m.
Proof.
  revert prev. induction b as [|a b IH]; intros prev.
  - rewrite app_nil_l. now destruct m.
  - rewrite app_cons. cbn [String.length skip]. apply IH.
Qed.

Lemma span_sound (c : ascii -> bool) (hi : option nat) (s : string) (n : nat) :
  n <= span c hi s ->
  n <= String.length s /\ all c (take n s) = true /\ within hi n.
Proof.
  revert hi n. induction s as [|a s IH]; intros hi n Hn; simpl in Hn.
  - assert (n = 0) as -> by lia. destruct hi; simpl; repeat split; lia.
  - destruct n as [|n]; [destruct hi; simpl; repeat split; lia|].
    destruct (c a) eqn:Ha; [|lia].
    destruct hi as [[|h]|]; [lia| |].
    + destruct (IH (Some h) n) as (H1 & H2 & H3); [lia|].
      simpl in *. rewrite Ha, H2. repeat split; lia.
    + destruct (IH None n) as (H1 & H2 & H3); [lia|].
      simpl in *. rewrite Ha, H2. repeat split; lia.
Qed.

Lemma span_complete (c : ascii -> bool) (hi : option nat) (b m : string) :
  all c b = true -> within hi (String.length b) ->
  String.length b <= span c hi (b +:+ m).
Proof.
  revert hi. induction b as [|a b IH]; intros hi Hall Hhi; [simpl; lia|].
  simpl in Hall. apply andb_prop in Hall as [Ha Hb].
  rewrite app_cons. cbn [String.length span]. rewrite Ha.
  destruct hi as [[|h]|]; simpl in Hhi; [lia| |].
  - assert (within (Some h) (String.length b)) as Hw by (simpl; lia).
    specialize (IH (Some h) Hb Hw). lia.
  - specialize (IH None Hb I). lia.
Qed.

(** *** The backtracking loop *)

Lemma retry_sound (k : option ascii -> string -> option string)
    (prev : option ascii) (s : string) (lo n : nat) (rest : string) :
  retry k prev s lo n = Some rest ->
  exists j, lo <= j /\ j <= n /\ k (skip j prev s).1 (skip j prev s).2 = Some rest.
Proof.
  induction n as [|n IH]; cbn [retry].
  - destruct (0 <? lo)%nat eqn:E; [discriminate|]. apply Nat.ltb_ge in E.
    destruct (k (skip 0 prev s).1 (skip 0 prev s).2) eqn:Hk; [|discriminate].
    intros [= <-]. exists 0. repeat split; [lia | lia | exact Hk].
  - destruct (S n <? lo)%nat eqn:E; [discriminate|]. apply Nat.ltb_ge in E.
    destruct (k (skip (S n) prev s).1 (skip (S n) prev s).2) eqn:Hk.
    + intros [= <-]. exists (S n). repeat split; [lia | lia | exact Hk].
    + intros H. destruct (IH H) as (j & H1 & H2 & H3). exists j. repeat split; [lia | lia | exact H3].
Qed.

Lemma retry_complete (k : option ascii -> string -> option string)
    (prev : option ascii) (s : string) (lo n j : nat) :
  lo <= j -> j <= n -> is_Some (k (skip j prev s).1 (skip j prev s).2) ->
  is_Some (retry k prev s lo n).
Proof.
  intros Hlo. induction n as [|n IH]; intros Hj Hk.
  - assert (j = 0) as -> by lia. cbn [retry].
    destruct (0 <? lo)%nat eqn:E; [apply Nat.ltb_lt in E; lia|].
    destruct Hk as [r Hr]. rewrite Hr. eauto.
  - cbn [retry]. destruct (S n <? lo)%nat eqn:E; [apply Nat.ltb_lt in E; lia|].
    destruct (k (skip (S n) prev s).1 (skip (S n) prev s).2) eqn:Hn; [eauto|].
    destruct (decide (j = S n)) as [->|Hne].
    + rewrite Hn in Hk. now destruct Hk.
    + apply IH; [lia | exact Hk].
Qed.

(** *** Soundness: what the matcher consumes is in the language *)

Lemma m_items_sound (its : branch) (prev : option ascii) (s rest : string) :
  m_items its prev s = Some rest ->
  exists m : string, s = (m +:+ rest)%string /\ InLang its m.
Proof.
  revert prev s. induction its as [|it its IH]; intros prev s H.
  - injection H as <-. exists EmptyString. split; reflexivity.
  - destruct it as [c lo hi| | |]; cbn [m_items] in H.
    + apply retry_sound in H as (j & Hlo & Hj & Hk).
      apply span_sound in Hj as (Hlen & Hall & Hhi).
      destruct (skip_split j prev s Hlen) as [Es Lj].
      destruct (IH _ _ Hk) as (m' & Em' & Hm').
      exists (take j s +:+ m')%string. split.
      * rewrite app_assoc_str, <- Em'. exact Es.
      * cbn [InLang]. exists (take j s), m'. rewrite Lj. auto.
    + destruct (xorb _ _); [|discriminate]. exact (IH _ _ H).
    + destruct prev; [discriminate|]. exact (IH _ _ H).
    + destruct (at_end s); [|discriminate]. exact (IH _ _ H).
Qed.

(** After a sequence that ends with [$], only a final newline can be left. *)
Lemma m_items_eol (its : branch) (prev : option ascii) (s rest : string) :
  ends_with_eol its = true -> m_items its prev s = Some rest -> at_end rest = true.
Proof.
  revert prev s. induction its as [|it its IH]; intros prev s He H; [discriminate|].
  destruct it as [c lo hi| | |]; cbn [m_items] in H.
  - apply retry_sound in H as (j & _ & _ & Hk). exact (IH _ _ He Hk).
  - destruct (xorb _ _); [|discriminate]. exact (IH _ _ He H).
  - destruct prev; [discriminate|]. exact (IH _ _ He H).
  - destruct (at_end s) eqn:Hs; [|discriminate].
    destruct its as [|it' its']; [injection H as <-; exact Hs|].
    exact (IH _ _ He H).
Qed.

(** *** Completeness on anchored sequences *)

Lemma m_items_body_complete (its : branch) (prev : option ascii) (m : string) :
  body_eol its = true -> InLang its m -> is_Some (m_items its prev m).
Proof.
  revert prev m. induction its as [|it its IH]; intros prev m Hb Hm; [discriminate|].
  destruct it as [c lo hi| | |]; try discriminate.
  - cbn [InLang] in Hm. destruct Hm as (b & m' & -> & Hall & Hlo & Hhi & Hm').
    cbn [m_items]. apply (retry_complete _ _ _ _ _ (String.length b)); [exact Hlo | |].
    + now apply span_complete.
    + rewrite skip_app. now apply IH.
  - destruct its as [|it' its']; [|discriminate].
    cbn [InLang] in Hm. subst m. simpl. eauto.
Qed.

Lemma m_items_anchored_complete (its : branch) (m : string) :
  anchored its = true -> InLang its m -> is_Some (m_items its None m).
Proof.
  destruct its as [|[c lo hi| | |] its]; try discriminate.
  intros Hb Hm. cbn [m_items]. now apply m_items_body_complete.
Qed.

Lemma body_eol_ends (its : branch) : body_eol its = true -> ends_with_eol its = true.
Proof.
  induction its as [|it its IH]; [discriminate|].
  destruct it as [c lo hi| | |]; try discriminate.
  - intros H. specialize (IH H). destruct its; [discriminate | exact IH].
  - destruct its; [reflexivity | discriminate].
Qed.

Lemma body_eol_ends_anchored (its : branch) :
  anchored its = true -> ends_with_eol its = true.
Proof.
  destruct its as [|[c lo hi| | |] its]; try discriminate.
  intros H. apply body_eol_ends in H. destruct its; [discriminate | exact H].
Qed.

(** *** Alternation and scanning *)

Lemma m_regex_sound (re : regex) (prev : option ascii) (s rest : string) :
  m_regex re prev s = Some rest ->
  exists b : branch, b ∈ re /\ m_items b prev s = Some rest.
Proof.
  induction re as [|b re IH]; [discriminate|]. simpl.
  destruct (m_items b prev s) eqn:Hb.
  - intros [= <-]. exists b. split; [left | exact Hb].
  - intros H. destruct (IH H) as (b' & Hin & Hb'). exists b'. split; [now right | exact Hb'].
Qed.

Lemma m_regex_complete (re : regex) (b : branch) (prev : option ascii) (s : string) :
  b ∈ re -> is_Some (m_items b prev s) -> is_Some (m_regex re prev s).
Proof.
  induction re as [|b' re IH]; intros Hin Hb; [now apply elem_of_nil in Hin|].
  simpl. destruct (m_items b' prev s) eqn:Hb'; [eauto|].
  apply elem_of_cons in Hin as [->|Hin]; [|now apply IH].
  rewrite Hb' in Hb. now destruct Hb.
Qed.

Lemma scan_sound (re : regex) (prev : option ascii) (pending : nat) (s x : string) :
  x ∈ scan re prev pending s ->
  exists (b : branch), b ∈ re /\ InLang b x.
Proof.
  revert prev pending. induction s as [|a s IH]; intros prev pending Hx.
  - now apply elem_of_nil in Hx.
  - cbn [scan] in Hx. destruct pending as [|k]; [|exact (IH _ _ Hx)].
    destruct (m_regex re prev (String a s)) as [rest|] eqn:Hm; [|exact (IH _ _ Hx)].
    apply elem_of_cons in Hx as [->|Hx]; [|exact (IH _ _ Hx)].
    apply m_regex_sound in Hm as (b & Hin & Hb).
    apply m_items_sound in Hb as (m & Em & Hl).
    exists b. split; [exact Hin|]. rewrite Em, matched_app. exact Hl.
Qed.

(** Every raw match of a pattern is in the language of the pattern. *)
Lemma findall_sound (re : regex) (txt x : string) :
  x ∈ findall re txt -> exists b : branch, b ∈ re /\ InLang b x.
Proof. apply scan_sound. Qed.

(** *** Consequences of membership in the language *)

Lemma in_lang_alphabet (its : branch) (m : string) :
  InLang its m -> all (alphabet its) m = true.
Proof.
  revert m. induction its as [|it its IH]; intros m Hm.
  - cbn [InLang] in Hm. now subst.
  - assert (forall a, alphabet its a = true -> alphabet (it :: its) a = true) as Hmono.
    { intros a Ha. unfold alphabet in *. simpl. rewrite Ha. apply orb_true_r. }
    destruct it as [c lo hi| | |]; cbn [InLang] in Hm;
      try (apply (all_impl _ _ _ Hmono); now apply IH).
    destruct Hm as (b & m' & -> & Hall & _ & _ & Hm').
    rewrite all_app. apply andb_true_intro. split.
    + apply (all_impl c); [|exact Hall]. intros a Ha. unfold alphabet. simpl. now rewrite Ha.
    + apply (all_impl _ _ _ Hmono). now apply IH.
Qed.

Lemma in_lang_min_length (its : branch) (m : string) :
  InLang its m -> min_length its <= String.length m.
Proof.
  revert m. induction its as [|it its IH]; intros m Hm; [simpl; lia|].
  destruct it as [c lo hi| | |]; cbn [InLang min_length] in *; try now apply IH.
  destruct Hm as (b & m' & -> & _ & Hlo & _ & Hm').
  rewrite length_app. specialize (IH _ Hm'). lia.
Qed.

Lemma in_lang_bound_char (x : ascii) (its : branch) (m : string) (n : nat) :
  InLang its m -> bound_char x its = Some n -> count (Ascii.eqb x) m <= n.
Proof.
  revert m n. induction its as [|it its IH]; intros m n Hm Hn.
  - cbn [InLang] in Hm. subst. simpl. lia.
  - destruct it as [c lo hi| | |]; cbn [InLang bound_char] in *; try now apply IH.
    destruct Hm as (b & m' & -> & Hall & _ & Hhi & Hm').
    rewrite count_app. destruct (c x) eqn:Hcx.
    + destruct hi as [h|]; [|discriminate].
      destruct (bound_char x its) as [n'|]; [|discriminate].
      injection Hn as <-. specialize (IH _ _ Hm' eq_refl).
      pose proof (count_le_length (Ascii.eqb x) b). simpl in Hhi. lia.
    + specialize (IH _ _ Hm' Hn).
      rewrite (count_none c (Ascii.eqb x) b); [lia| |exact Hall].
      intros a Ha. destruct (Ascii.eqb_spec x a) as [->|]; [congruence | reflexivity].
Qed.

End ReFacts.

(** ** The guard of the scanning loop *)
Module GuardFacts.
Import Str Re Patterns Extractor Spec StrFacts ReFacts ExtractorFacts.
Local Open Scope list_scope.

Lemma is_likely_tag_spec (m : string) : is_likely_tag m = true <-> shape_heuristic m.
Proof.
  unfold is_likely_tag, shape_heuristic.
  destruct (decide (m = EmptyString)) as [->|Hne].
  - simpl. split; [discriminate|]. intros [_ [H|H]]; [discriminate | lia].
  - rewrite bool_decide_eq_false_2 by exact Hne. rewrite orb_false_l.
    set (L := String.length m). set (U := count is_upper_c m). set (I := isupper m).
    destruct (50 <? L)%nat eqn:E50.
    + apply Nat.ltb_lt in E50. split; [discriminate | lia].
    + apply Nat.ltb_ge in E50. destruct I; cbn [orb]; [split; auto|].
      destruct (L <? 2 * U)%nat eqn:EU.
      * apply Nat.ltb_lt in EU. split; auto.
      * apply Nat.ltb_ge in EU. split; [discriminate|].
        intros [_ [H|H]]; [discriminate | lia].
Qed.

(** The exclusion rules are all of the form [^ classes $]. *)
Lemma exclude_patterns_anchored :
  Forall (Forall (fun b => anchored b = true)) EXCLUDE_PATTERNS.
Proof. repeat constructor. Qed.

(** No acceptance pattern admits a line break. *)
Lemma compiled_patterns_one_line :
  Forall (fun entry : string * regex =>
            Forall (fun b => alphabet b "010" = false) entry.2) COMPILED_PATTERNS.
Proof. repeat constructor. Qed.

Lemma at_end_inv (rest : string) :
  at_end rest = true -> rest = EmptyString \/ rest = String "010" EmptyString.
Proof.
  destruct rest as [|a [|a' r]]; simpl; auto; [|discriminate].
  intros H. apply Ascii.eqb_eq in H. subst. now right.
Qed.

Lemma is_excluded_iff (m : string) :
  is_excluded m = true <->
  exists (rule : regex) (b : branch) (rest : string),
    rule ∈ EXCLUDE_PATTERNS /\ b ∈ rule /\ m_items b None m = Some rest.
Proof.
  unfold is_excluded, COMPILED_EXCLUDE. rewrite existsb_exists. split.
  - intros (rule & Hin & Hm). apply bool_decide_eq_true in Hm. unfold match_ in Hm.
    destruct (m_regex rule None m) as [rest|] eqn:Hr; [|now destruct Hm].
    apply m_regex_sound in Hr as (b & Hb & Hi).
    exists rule, b, rest. split; [now apply list_elem_of_In | auto].
  - intros (rule & b & rest & Hin & Hb & Hi). exists rule.
    split; [now apply list_elem_of_In|]. apply bool_decide_eq_true. unfold match_.
    destruct (m_regex_complete rule b None m Hb) as [r Hr]; [eauto|].
    rewrite Hr. eauto.
Qed.

(** On a string without a line break the exclusion check of the code is
    the whole-string match of the specification. *)
Lemma is_excluded_sound (m : string) :
  no_newline m -> is_excluded m = true -> excluded m.
Proof.
  intros Hnl (rule & b & rest & Hin & Hb & Hi)%is_excluded_iff.
  exists rule. split; [exact Hin|]. exists b. split; [exact Hb|].
  pose proof exclude_patterns_anchored as Ha.
  rewrite Forall_forall in Ha. specialize (Ha _ Hin).
  rewrite Forall_forall in Ha. specialize (Ha _ Hb).
  pose proof (m_items_eol _ _ _ _ (body_eol_ends_anchored b Ha) Hi) as He.
  apply m_items_sound in Hi as (m0 & Em & Hl).
  apply at_end_inv in He as [->| ->].
  - rewrite app_empty_r in Em. now subst.
  - unfold no_newline in Hnl. rewrite Em, all_app in Hnl.
    apply andb_prop in Hnl as [_ Hnl]. discriminate.
Qed.

Lemma is_excluded_complete (m : string) : excluded m -> is_excluded m = true.
Proof.
  intros (rule & Hin & b & Hb & Hl). apply is_excluded_iff.
  pose proof exclude_patterns_anchored as Ha.
  rewrite Forall_forall in Ha. specialize (Ha _ Hin).
  rewrite Forall_forall in Ha. specialize (Ha _ Hb).
  destruct (m_items_anchored_complete b m Ha Hl) as [rest Hr].
  exists rule, b, rest. auto.
Qed.

Lemma elem_of_raw_matches (txt m : string) :
  m ∈ raw_matches txt <->
  exists entry : string * regex, entry ∈ COMPILED_PATTERNS /\ m ∈ findall entry.2 txt.
Proof.
  unfold raw_matches. rewrite list_elem_of_In, in_flat_map. split.
  - intros (e & He & Hm). exists e. now rewrite !list_elem_of_In.
  - intros (e & He & Hm). exists e. now rewrite <- !list_elem_of_In.
Qed.

(** A raw match is denoted by a branch of one of the acceptance patterns. *)
Lemma raw_match_in_lang (txt m : string) :
  m ∈ raw_matches txt ->
  exists (entry : string * regex) (b : branch),
    entry ∈ COMPILED_PATTERNS /\ b ∈ entry.2 /\ InLang b m.
Proof.
  intros (entry & He & Hm)%elem_of_raw_matches.
  apply findall_sound in Hm as (b & Hb & Hl). eauto.
Qed.

Lemma raw_match_no_newline (txt m : string) : m ∈ raw_matches txt -> no_newline m.
Proof.
  intros (entry & b & He & Hb & Hl)%raw_match_in_lang.
  pose proof compiled_patterns_one_line as Ha.
  rewrite Forall_forall in Ha. specialize (Ha _ He).
  rewrite Forall_forall in Ha. specialize (Ha _ Hb).
  apply in_lang_alphabet in Hl. unfold no_newline.
  apply (all_impl (alphabet b)); [|exact Hl].
  intros a Hab. destruct (Ascii.eqb_spec a "010") as [->|]; [congruence | reflexivity].
Qed.

Lemma elem_of_accepted (txt m : string) :
  m ∈ accepted_occurrences txt <-> m ∈ raw_matches txt /\ accepts m = true.
Proof. unfold accepted_occurrences. rewrite list_elem_of_filter. tauto. Qed.

Lemma elem_of_result (d : bool) (self : TagExtractor) (tag : string) :
  tag ∈ (extract_all_tags d self).1 <-> tag ∈ accepted_occurrences (text self).
Proof.
  rewrite extract_all_tags_result. destruct d.
  - now rewrite elem_of_sorted, elem_of_unique.
  - now rewrite elem_of_sorted.
Qed.

End GuardFacts.

(** ** Claims about the guard and the category chain *)
Module GuardClaims.
Import Str Re Patterns Extractor Spec StrFacts ReFacts ExtractorFacts GuardFacts.
Local Open Scope list_scope.

(** C4: a raw pattern match is accepted by [extract_all_tags] exactly when
    it passes the shape heuristic and is not excluded, that is, matched as a
    whole by no exclusion rule; no excluded string is ever returned, and
    ["ST0008"], ["NOTE 1"] and ["P1011-1"] are excluded strings. *)
Theorem accepted_iff_shape_and_not_excluded :
  (forall (deduplicate : bool) (self : TagExtractor) (m : string),
     m ∈ raw_matches (text self) ->
     (m ∈ tags (extract_all_tags deduplicate self).2
      <-> shape_heuristic m /\ ~ excluded m)) /\
  (forall (deduplicate : bool) (self : TagExtractor) (tag : string),
     excluded tag -> tag ∉ (extract_all_tags deduplicate self).1) /\
  excluded "ST0008" /\ excluded "NOTE 1" /\ excluded "P1011-1".
Proof.
  split; [|split].
  - intros d self m Hraw. rewrite extract_all_tags_state. cbn [tags].
    rewrite elem_of_accepted. unfold accepts.
    pose proof (raw_match_no_newline _ _ Hraw) as Hnl.
    rewrite andb_true_iff, negb_true_iff, is_likely_tag_spec. split.
    + intros (_ & Hshape & Hex). split; [exact Hshape|].
      intros He%is_excluded_complete. congruence.
    + intros (Hshape & Hex). split; [exact Hraw|]. split; [exact Hshape|].
      destruct (is_excluded m) eqn:E; [|reflexivity].
      exfalso. apply Hex. now apply is_excluded_sound.
  - intros d self tag Hex Hin. apply elem_of_result, elem_of_accepted in Hin as [_ Hacc].
    unfold accepts in Hacc. apply andb_prop in Hacc as [_ Hne].
    apply is_excluded_complete in Hex. rewrite Hex in Hne. discriminate.
  - repeat split; apply is_excluded_sound; reflexivity.
Qed.

Lemma accepted_iff_shape_and_not_excluded_witness :
  "P1011"%string ∈ raw_matches (text (init "P1011-1")) /\
  ("P1011"%string ∈ tags (extract_all_tags true (init "P1011-1")).2
   <-> shape_heuristic "P1011" /\ ~ excluded "P1011").
Proof.
  assert ("P1011"%string ∈ raw_matches (text (init "P1011-1"))) as Hraw.
  { assert (raw_matches (text (init "P1011-1")) = ["P1011"%string]) as ->
      by (vm_compute; reflexivity).
    apply list_elem_of_here. }
  split; [exact Hraw|].
  exact (proj1 accepted_iff_shape_and_not_excluded true (init "P1011-1") "P1011"%string Hraw).
Defined.

(** *** The category chain *)

Lemma split_length (sep : ascii) (s : string) :
  length (split sep s) = S (count (Ascii.eqb sep) s).
Proof.
  induction s as [|a s IH]; [reflexivity|].
  cbn [split count]. rewrite (Ascii.eqb_sym sep a).
  destruct (Ascii.eqb a sep); simpl.
  - now rewrite IH.
  - destruct (split sep s); simpl in *; lia.
Qed.

Lemma instrument_rule_hyphens (tag : string) :
  instrument_rule tag = true -> 2 <= count (Ascii.eqb "-") tag.
Proof.
  unfold instrument_rule. intros [_ H]%andb_prop.
  apply Nat.leb_le in H. rewrite split_length in H. lia.
Qed.

(** A string that begins with two characters and a hyphen, and is at least
    six characters long, is no pump and no valve tag. *)
Lemma two_then_hyphen (c : ascii -> bool) (r : branch) (tag : string) :
  InLang (WordB :: Cls c 2 (Some 2) :: Cls (Ascii.eqb "-") 1 (Some 1) :: r) tag ->
  exists (a1 a2 : ascii) (m : string), tag = String a1 (String a2 (String "-" m)).
Proof.
  cbn [InLang].
  intros (b & m1 & -> & _ & Hlo & Hhi & b2 & m2 & -> & Hall & Hlo2 & Hhi2 & _).
  simpl in Hhi, Hhi2.
  destruct b as [|a1 [|a2 [|a3 b]]]; simpl in Hlo, Hhi; try lia.
  destruct b2 as [|h [|h' b2]]; simpl in Hlo2, Hhi2; try lia.
  cbn [all] in Hall. rewrite andb_true_r in Hall. apply Ascii.eqb_eq in Hall. subst h.
  exists a1, a2, m2. reflexivity.
Qed.

Lemma hyphen_third_not_pump_or_valve (a1 a2 : ascii) (m : string) :
  6 <= String.length (String a1 (String a2 (String "-" m))) ->
  pump_rule (String a1 (String a2 (String "-" m))) = false /\
  valve_rule (String a1 (String a2 (String "-" m))) = false.
Proof.
  intros Hlen. unfold pump_rule, valve_rule, startswith. split.
  - apply orb_false_intro.
    + destruct (String.prefix "STORM_P" _) eqn:E; [|reflexivity].
      apply prefix_correct in E. simpl in E. discriminate.
    + apply andb_false_intro2. apply Nat.eqb_neq. lia.
  - destruct (String.prefix "VLV" _) eqn:E; [|reflexivity].
    apply prefix_correct in E. simpl in E. discriminate.
Qed.

(** An accepted tag with two hyphens comes from the instrument pattern, and
    no rule before the Instrument rule applies to it. *)
Lemma raw_instrument_not_pump_or_valve (txt tag : string) :
  tag ∈ raw_matches txt -> instrument_rule tag = true ->
  pump_rule tag = false /\ valve_rule tag = false.
Proof.
  intros (entry & b & He & Hb & Hl)%raw_match_in_lang Hi%instrument_rule_hyphens.
  unfold COMPILED_PATTERNS in He.
  repeat (apply elem_of_cons in He as [->|He]); [..|now apply elem_of_nil in He];
    cbn [snd] in Hb;
    (apply elem_of_cons in Hb as [->|Hb]; [|now apply elem_of_nil in Hb]).
  - pose proof (in_lang_bound_char "-" _ _ 1 Hl eq_refl). lia.
  - pose proof (in_lang_bound_char "-" _ _ 0 Hl eq_refl). lia.
  - pose proof (in_lang_bound_char "-" _ _ 0 Hl eq_refl). lia.
  - pose proof (in_lang_bound_char "-" _ _ 0 Hl eq_refl). lia.
  - pose proof (in_lang_min_length _ _ Hl) as Hlen.
    destruct (two_then_hyphen _ _ _ Hl) as (a1 & a2 & m & ->).
    apply hyphen_third_not_pump_or_valve.
    change (min_length _) with 13 in Hlen. lia.
  - pose proof (in_lang_bound_char "-" _ _ 0 Hl eq_refl). lia.
  - pose proof (in_lang_bound_char "-" _ _ 0 Hl eq_refl). lia.
Qed.

(** C5: [get_tags_by_type] puts every tag of the instance in the list of
    the category the fixed-priority chain gives it (Pump, else Valve, else
    Instrument, else Equipment, else Other; first match wins) and in no
    other list; the Equipment rule is not reached by a tag the Instrument
    rule holds for, and an accepted tag satisfying the Instrument rule is
    listed under instruments, never under equipment. *)
Theorem category_chain_first_match :
  (forall (self : TagExtractor) (tag : string) (c : category),
     tag ∈ tags self ->
     (tag ∈ field c (get_tags_by_type self) <-> c = category_of tag)) /\
  (forall tag : string,
     category_of tag
     = if pump_rule tag then Pump
       else if valve_rule tag then Valve
       else if instrument_rule tag then Instrument
       else if equipment_rule tag then Equipment
       else Other) /\
  (forall tag : string,
     instrument_rule tag = true -> category_of tag <> Equipment) /\
  (forall (deduplicate : bool) (self : TagExtractor) (tag : string),
     tag ∈ tags (extract_all_tags deduplicate self).2 ->
     instrument_rule tag = true ->
     category_of tag = Instrument /\
     tag ∈ instruments (get_tags_by_type (extract_all_tags deduplicate self).2) /\
     tag ∉ equipment (get_tags_by_type (extract_all_tags deduplicate self).2)).
Proof.
  split; [|split; [|split]].
  - intros self tag c Hin. rewrite elem_of_field. split; [intros [_ <-]; reflexivity|].
    intros ->. auto.
  - reflexivity.
  - intros tag Hi. unfold category_of. simpl. rewrite Hi.
    destruct (pump_rule tag), (valve_rule tag); discriminate.
  - intros d self tag Hin Hi.
    assert (category_of tag = Instrument) as Hc.
    { rewrite extract_all_tags_state in Hin. cbn [tags] in Hin.
      apply elem_of_accepted in Hin as [Hraw _].
      destruct (raw_instrument_not_pump_or_valve _ _ Hraw Hi) as [Hp Hv].
      unfold category_of. simpl. now rewrite Hp, Hv, Hi. }
    split; [exact Hc|]. split.
    + change (tag ∈ field Instrument (get_tags_by_type (extract_all_tags d self).2)).
      apply elem_of_field. auto.
    + change (tag ∉ field Equipment (get_tags_by_type (extract_all_tags d self).2)).
      rewrite elem_of_field. intros [_ He]. congruence.
Qed.

Lemma category_chain_first_match_witness :
  "QD-TRAP-84-1101"%string ∈ tags (extract_all_tags true (init "QD-TRAP-84-1101")).2 /\
  instrument_rule "QD-TRAP-84-1101" = true /\
  equipment_rule "QD-TRAP-84-1101" = true /\
  category_of "QD-TRAP-84-1101" = Instrument /\
  "QD-TRAP-84-1101"%string
    ∈ instruments (get_tags_by_type (extract_all_tags true (init "QD-TRAP-84-1101")).2) /\
  "QD-TRAP-84-1101"%string
    ∉ equipment (get_tags_by_type (extract_all_tags true (init "QD-TRAP-84-1101")).2).
Proof.
  assert ("QD-TRAP-84-1101"%string
            ∈ tags (extract_all_tags true (init "QD-TRAP-84-1101")).2) as Hin.
  { assert (tags (extract_all_tags true (init "QD-TRAP-84-1101")).2
            = ["QD-TRAP-84-1101"%string]) as -> by (vm_compute; reflexivity).
    apply list_elem_of_here. }
  split; [exact Hin|]. split; [reflexivity|]. split; [reflexivity|].
  exact (proj2 (proj2 (proj2 category_chain_first_match)) true
           (init "QD-TRAP-84-1101") "QD-TRAP-84-1101"%string Hin eq_refl).
Defined.

End GuardClaims.

(** ** Further properties of the tag classification engine *)
Module ExtractorExtras.
Import Patterns Extractor Spec Order ExtractorFacts.
Local Open Scope list_scope.

Lemma leb_cases (x y : string) :
  String.leb x y = true <-> String.ltb x y = true \/ x = y.
Proof.
  unfold String.leb, String.ltb.
  destruct (String.compare x y) eqn:E.
  - apply String.compare_eq_iff in E. tauto.
  - tauto.
  - split; [discriminate|]. intros [H| ->]; [discriminate|].
    assert (String.compare y y = Eq) as Hy
      by now apply OrderedTypeEx.String_as_OT.cmp_eq.
    congruence.
Qed.

Lemma ltb_trans (x y z : string) :
  String.ltb x y = true -> String.ltb y z = true -> String.ltb x z = true.
Proof.
  unfold String.ltb. intros Hxy Hyz.
  destruct (String.compare x y) eqn:E1; try discriminate.
  destruct (String.compare y z) eqn:E2; try discriminate.
  apply OrderedTypeEx.String_as_OT.cmp_lt in E1, E2.
  pose proof (OrderedTypeEx.String_as_OT.lt_trans _ _ _ E1 E2) as H.
  apply OrderedTypeEx.String_as_OT.cmp_lt in H.
  unfold OrderedTypeEx.String_as_OT.cmp in H. now rewrite H.
Qed.

Lemma ltb_irrefl (x : string) : String.ltb x x = false.
Proof.
  unfold String.ltb.
  assert (String.compare x x = Eq) as -> by now apply OrderedTypeEx.String_as_OT.cmp_eq.
  reflexivity.
Qed.

#[local] Instance le_total : Total Str.le.
Proof. intros x y. apply String.leb_total. Qed.

#[local] Instance le_trans : Transitive Str.le.
Proof.
  intros x y z. unfold Str.le. rewrite !leb_cases.
  intros [Hxy| ->] [Hyz| ->]; auto. left. exact (ltb_trans _ _ _ Hxy Hyz).
Qed.

#[local] Instance le_antisym : AntiSymm eq Str.le.
Proof. intros x y. apply String.leb_antisym. Qed.

Lemma sorted_ascending (l : list string) : StronglySorted Str.le (Str.sorted l).
Proof. apply StronglySorted_merge_sort; apply _. Qed.

Lemma ascending_nodup_strict (l : list string) :
  StronglySorted Str.le l -> NoDup l -> StronglySorted lt l.
Proof.
  induction 1 as [|x l Hl IH Hx]; intros Hnd; [constructor|].
  apply NoDup_cons in Hnd as [Hnin Hnd]. constructor; [now apply IH|].
  rewrite Forall_forall in *. intros y Hy.
  specialize (Hx y Hy). unfold Str.le in Hx. apply leb_cases in Hx as [Hlt| ->].
  - exact Hlt.
  - contradiction.
Qed.

Lemma sorted_unique_strict (l : list string) : StronglySorted lt (Str.sorted (unique l)).
Proof.
  apply ascending_nodup_strict; [apply sorted_ascending|].
  rewrite sorted_perm. apply NoDup_unique.
Qed.

(** X1: with [deduplicate] set, [extract_all_tags] returns a strictly
    ascending list, hence without repetition, whose elements are exactly the
    accepted tags of the text. *)
Theorem extract_all_tags_dedup_strictly_ascending (self : TagExtractor) :
  StronglySorted lt (extract_all_tags true self).1 /\
  NoDup (extract_all_tags true self).1 /\
  (forall tag : string,
     tag ∈ (extract_all_tags true self).1 <-> tag ∈ accepted_occurrences (text self)).
Proof.
  rewrite extract_all_tags_result. split; [apply sorted_unique_strict|]. split.
  - rewrite sorted_perm. apply NoDup_unique.
  - intros tag. now rewrite elem_of_sorted, elem_of_unique.
Qed.

(** X2: without [deduplicate], [extract_all_tags] returns the accepted
    occurrences in ascending order with every repetition kept: the list is a
    rearrangement of the instance's tag list, as long as the summary's
    [total_instances]. *)
Theorem extract_all_tags_all_ascending (self : TagExtractor) :
  StronglySorted Str.le (extract_all_tags false self).1 /\
  (extract_all_tags false self).1 ≡ₚ tags (extract_all_tags false self).2 /\
  length (extract_all_tags false self).1
  = total_instances (get_summary (extract_all_tags false self).2).
Proof.
  rewrite extract_all_tags_result, extract_all_tags_state. cbn [tags].
  split; [apply sorted_ascending|]. split; [apply sorted_perm|].
  unfold get_summary. cbn [total_instances tags]. now rewrite sorted_perm.
Qed.

(** X3: the two modes agree: the deduplicated result is the strictly
    ascending list of the distinct elements of the full result, and it is
    as long as the summary's [total_unique]. *)
Theorem extract_all_tags_modes_agree (self : TagExtractor) :
  (extract_all_tags true self).1
  = Str.sorted (unique (extract_all_tags false self).1) /\
  length (extract_all_tags true self).1
  = total_unique (get_summary (extract_all_tags true self).2).
Proof.
  rewrite !extract_all_tags_result, extract_all_tags_state. split.
  - apply (StronglySorted_unique Str.le).
    + apply sorted_ascending.
    + apply sorted_ascending.
    + rewrite !sorted_perm. apply NoDup_Permutation; try apply NoDup_unique.
      intros x. now rewrite !elem_of_unique, elem_of_sorted.
  - unfold get_summary. cbn [total_unique tags]. now rewrite sorted_perm.
Qed.

End ExtractorExtras.

(** ** Separation of patterns *)
Module SeparationFacts.
Import Str Re Patterns Spec Separation StrFacts ReFacts.
Local Open Scope list_scope.

Lemma forall_bool_spec (p : bool -> bool) :
  forall_bool p = true -> forall b, p b = true.
Proof. unfold forall_bool. intros [H0 H1]%andb_prop [|]; assumption. Qed.

Lemma forall_ascii_spec (p : ascii -> bool) :
  forall_ascii p = true -> forall a, p a = true.
Proof.
  unfold forall_ascii. intros H [b0 b1 b2 b3 b4 b5 b6 b7].
  pose proof (forall_bool_spec _ H b0) as H0. cbv beta in H0.
  pose proof (forall_bool_spec _ H0 b1) as H1. cbv beta in H1.
  pose proof (forall_bool_spec _ H1 b2) as H2. cbv beta in H2.
  pose proof (forall_bool_spec _ H2 b3) as H3. cbv beta in H3.
  pose proof (forall_bool_spec _ H3 b4) as H4. cbv beta in H4.
  pose proof (forall_bool_spec _ H4 b5) as H5. cbv beta in H5.
  pose proof (forall_bool_spec _ H5 b6) as H6. cbv beta in H6.
  exact (forall_bool_spec _ H6 b7).
Qed.

Lemma disjoint_spec (c1 c2 : ascii -> bool) (a : ascii) :
  disjoint c1 c2 = true -> c1 a = true -> c2 a = false.
Proof.
  intros H Ha. pose proof (forall_ascii_spec _ H a) as Hd. cbv beta in Hd.
  rewrite Ha in Hd. now destruct (c2 a).
Qed.

Lemma subset_spec (c1 c2 : ascii -> bool) (a : ascii) :
  subset c1 c2 = true -> c1 a = true -> c2 a = true.
Proof.
  intros H Ha. pose proof (forall_ascii_spec _ H a) as Hd. cbv beta in Hd.
  now rewrite Ha in Hd.
Qed.

Lemma in_lang_max_length (its : branch) (m : string) (n : nat) :
  InLang its m -> max_length its = Some n -> String.length m <= n.
Proof.
  revert m n. induction its as [|it its IH]; intros m n Hm Hn.
  - cbn [InLang] in Hm. subst. simpl. lia.
  - destruct it as [c lo hi| | |]; cbn [InLang max_length] in *; try now apply IH.
    destruct Hm as (b & m' & -> & _ & _ & Hhi & Hm').
    destruct hi as [h|]; [|discriminate].
    destruct (max_length its) as [n'|]; [|discriminate].
    injection Hn as <-. specialize (IH _ _ Hm' eq_refl).
    rewrite length_app. simpl in Hhi. lia.
Qed.

Lemma count_all (c : ascii -> bool) (s : string) :
  all c s = true -> count c s = String.length s.
Proof.
  induction s as [|a s IH]; [reflexivity|]. simpl.
  intros [Ha Hs]%andb_prop. now rewrite Ha, IH.
Qed.

Lemma in_lang_min_in (c' : ascii -> bool) (its : branch) (m : string) :
  InLang its m -> min_in c' its <= count c' m.
Proof.
  revert m. induction its as [|it its IH]; intros m Hm; [simpl; lia|].
  destruct it as [c lo hi| | |]; cbn [InLang min_in] in *; try now apply IH.
  destruct Hm as (b & m' & -> & Hall & Hlo & _ & Hm').
  rewrite count_app. specialize (IH _ Hm').
  destruct (subset c c') eqn:Hs; [|lia].
  rewrite (count_all c' b); [lia|].
  apply (all_impl c); [|exact Hall]. intros a. now apply subset_spec.
Qed.

Lemma in_lang_needs_outside (A : ascii -> bool) (its : branch) (m : string) :
  InLang its m -> needs_outside A its = true -> all A m = true -> False.
Proof.
  revert m. induction its as [|it its IH]; intros m Hm Hn HA; [discriminate|].
  unfold needs_outside in Hn. cbn [existsb] in Hn.
  apply orb_prop in Hn as [Hn|Hn].
  - destruct it as [c lo hi| | |]; try discriminate.
    apply andb_prop in Hn as [Hlo Hd]. apply Nat.leb_le in Hlo.
    cbn [InLang] in Hm. destruct Hm as (b & m' & -> & Hall & Hlo' & _ & _).
    destruct b as [|a b]; [simpl in Hlo'; lia|].
    rewrite app_cons in HA. simpl in HA, Hall.
    apply andb_prop in HA as [HAa _]. apply andb_prop in Hall as [Hca _].
    rewrite (disjoint_spec _ _ _ Hd Hca) in HAa. discriminate.
  - destruct it as [c lo hi| | |]; cbn [InLang] in Hm;
      try exact (IH _ Hm Hn HA).
    destruct Hm as (b & m' & -> & _ & _ & _ & Hm').
    rewrite all_app in HA. apply andb_prop in HA as [_ HA].
    exact (IH _ Hm' Hn HA).
Qed.

(** Two sequences told apart denote no common string. *)
Lemma apart_sound (b e : branch) (m : string) :
  apart b e = true -> InLang b m -> InLang e m -> False.
Proof.
  unfold apart. intros H Hb He.
  repeat (apply orb_prop in H as [H|H]).
  - unfold below in H. destruct (max_length b) as [n|] eqn:E; [|discriminate].
    apply Nat.ltb_lt in H.
    pose proof (in_lang_max_length _ _ _ Hb E). pose proof (in_lang_min_length _ _ He). lia.
  - unfold below in H. destruct (max_length e) as [n|] eqn:E; [|discriminate].
    apply Nat.ltb_lt in H.
    pose proof (in_lang_max_length _ _ _ He E). pose proof (in_lang_min_length _ _ Hb). lia.
  - exact (in_lang_needs_outside _ _ _ Hb H (in_lang_alphabet _ _ He)).
  - exact (in_lang_needs_outside _ _ _ He H (in_lang_alphabet _ _ Hb)).
  - unfold below in H. destruct (bound_char "-" e) as [n|] eqn:E; [|discriminate].
    apply Nat.ltb_lt in H.
    pose proof (in_lang_bound_char _ _ _ _ He E).
    pose proof (in_lang_min_in (Ascii.eqb "-") _ _ Hb). lia.
Qed.

(** Every alternative of every acceptance pattern is apart from every
    alternative of every exclusion rule. *)
Lemma patterns_apart_from_exclusions :
  forallb (fun entry : string * regex =>
    forallb (fun b =>
      forallb (fun rule : regex => forallb (fun e => apart b e) rule) EXCLUDE_PATTERNS)
      entry.2) COMPILED_PATTERNS = true.
Proof. vm_compute. reflexivity. Qed.

End SeparationFacts.

(** ** What the guard does on raw matches *)
Module GuardExtras.
Import Str Re Patterns Extractor Spec Separation.
Import StrFacts ReFacts ExtractorFacts GuardFacts SeparationFacts.
Local Open Scope list_scope.

Lemma any_app (p : ascii -> bool) (s t : string) :
  any p (s +:+ t) = any p s || any p t.
Proof.
  induction s as [|a s IH]; [reflexivity|].
  rewrite app_cons. simpl. now rewrite IH, orb_assoc.
Qed.

Lemma in_lang_needs_inside (A : ascii -> bool) (its : branch) (m : string) :
  InLang its m -> needs_inside A its = true -> any A m = true.
Proof.
  revert m. induction its as [|it its IH]; intros m Hm Hn; [discriminate|].
  unfold needs_inside in Hn. cbn [existsb] in Hn.
  apply orb_prop in Hn as [Hn|Hn].
  - destruct it as [c lo hi| | |]; try discriminate.
    apply andb_prop in Hn as [Hlo Hs]. apply Nat.leb_le in Hlo.
    cbn [InLang] in Hm. destruct Hm as (b & m' & -> & Hall & Hlo' & _ & _).
    destruct b as [|a b]; [simpl in Hlo'; lia|].
    rewrite app_cons. simpl in Hall |- *. apply andb_prop in Hall as [Hca _].
    now rewrite (subset_spec _ _ _ Hs Hca).
  - destruct it as [c lo hi| | |]; cbn [InLang] in Hm; try exact (IH _ Hm Hn).
    destruct Hm as (b & m' & -> & _ & _ & _ & Hm').
    rewrite any_app, (IH _ Hm' Hn). apply orb_true_r.
Qed.

Lemma all_disjoint_any (A c : ascii -> bool) (s : string) :
  disjoint A c = true -> all A s = true -> any c s = false.
Proof.
  intros Hd. induction s as [|a s IH]; [reflexivity|]. simpl.
  intros [Ha Hs]%andb_prop. now rewrite (disjoint_spec _ _ _ Hd Ha), IH.
Qed.

(** Every acceptance pattern asks for an upper-case letter and admits no
    lower-case one. *)
Lemma compiled_patterns_upper_case :
  forallb (fun entry : string * regex =>
    forallb (fun b => needs_inside is_upper_c b && disjoint (alphabet b) is_lower_c)
      entry.2) COMPILED_PATTERNS = true.
Proof. vm_compute. reflexivity. Qed.

Lemma raw_match_isupper (txt m : string) : m ∈ raw_matches txt -> isupper m = true.
Proof.
  intros (entry & b & He & Hb & Hl)%raw_match_in_lang.
  pose proof compiled_patterns_upper_case as Ht.
  rewrite forallb_forall in Ht. apply list_elem_of_In in He. specialize (Ht _ He).
  rewrite forallb_forall in Ht. apply list_elem_of_In in Hb. specialize (Ht _ Hb).
  apply andb_prop in Ht as [Hup Hlow]. unfold isupper.
  rewrite (in_lang_needs_inside _ _ _ Hl Hup).
  now rewrite (all_disjoint_any _ _ _ Hlow (in_lang_alphabet _ _ Hl)).
Qed.

Lemma raw_match_not_excluded (txt m : string) :
  m ∈ raw_matches txt -> is_excluded m = false.
Proof.
  intros Hraw. destruct (is_excluded m) eqn:E; [|reflexivity]. exfalso.
  apply (is_excluded_sound _ (raw_match_no_newline _ _ Hraw)) in E.
  destruct E as (rule & Hrule & e & He & Hle).
  destruct (raw_match_in_lang _ _ Hraw) as (entry & b & Hentry & Hb & Hlb).
  pose proof patterns_apart_from_exclusions as Ht.
  rewrite forallb_forall in Ht. apply list_elem_of_In in Hentry. specialize (Ht _ Hentry).
  rewrite forallb_forall in Ht. apply list_elem_of_In in Hb. specialize (Ht _ Hb).
  rewrite forallb_forall in Ht. apply list_elem_of_In in Hrule. specialize (Ht _ Hrule).
  rewrite forallb_forall in Ht. apply list_elem_of_In in He. specialize (Ht _ He).
  exact (apart_sound _ _ _ Ht Hlb Hle).
Qed.

Lemma raw_match_nonempty (txt m : string) : m ∈ raw_matches txt -> m <> EmptyString.
Proof.
  intros H%raw_match_isupper ->. discriminate.
Qed.

Lemma raw_match_accepts (txt m : string) :
  m ∈ raw_matches txt -> accepts m = (String.length m <=? 50)%nat.
Proof.
  intros Hraw. unfold accepts, is_likely_tag.
  rewrite (raw_match_not_excluded _ _ Hraw), (raw_match_isupper _ _ Hraw).
  rewrite bool_decide_eq_false_2 by exact (raw_match_nonempty _ _ Hraw).
  cbn [orb negb]. rewrite andb_true_r, Nat.ltb_antisym.
  now destruct (String.length m <=? 50)%nat.
Qed.

Lemma filter_iff_on {A : Type} (P Q : A -> Prop)
    `{!forall x, Decision (P x)} `{!forall x, Decision (Q x)} (l : list A) :
  (forall x, x ∈ l -> (P x <-> Q x)) -> filter P l = filter Q l.
Proof.
  induction l as [|a l IH]; intros Hpq; [reflexivity|].
  rewrite !filter_cons, IH by (intros x Hx; apply Hpq; now right).
  pose proof (Hpq a (list_elem_of_here _ _)) as Ha.
  destruct (decide (P a)) as [Hp|Hp], (decide (Q a)) as [Hq|Hq];
    try reflexivity; tauto.
Qed.

(** X4: no exclusion rule ever applies to a raw match of an acceptance
    pattern: on every string that [findall] hands to the guard of
    [extract_all_tags], [is_excluded] is false. *)
Theorem raw_matches_never_excluded (txt : string) (entry : string * regex) (m : string) :
  entry ∈ COMPILED_PATTERNS -> m ∈ findall entry.2 txt -> is_excluded m = false.
Proof.
  intros He Hm. apply (raw_match_not_excluded txt).
  apply elem_of_raw_matches. eauto.
Qed.

Lemma raw_matches_never_excluded_witness :
  ("generic_tag"%string, GENERIC_TAG_PATTERN) ∈ COMPILED_PATTERNS /\
  "FIT1001"%string ∈ findall GENERIC_TAG_PATTERN "FIT1001 ST0008" /\
  is_excluded "FIT1001" = false.
Proof.
  assert (("generic_tag"%string, GENERIC_TAG_PATTERN) ∈ COMPILED_PATTERNS) as He
    by (unfold COMPILED_PATTERNS; do 5 right; left).
  assert ("FIT1001"%string ∈ findall GENERIC_TAG_PATTERN "FIT1001 ST0008") as Hm.
  { assert (findall GENERIC_TAG_PATTERN "FIT1001 ST0008" = ["FIT1001"%string]) as ->
      by (vm_compute; reflexivity).
    left. }
  split; [exact He|]. split; [exact Hm|].
  exact (raw_matches_never_excluded "FIT1001 ST0008"
           ("generic_tag"%string, GENERIC_TAG_PATTERN) "FIT1001"%string He Hm).
Defined.

(** X5: the tag list an extraction leaves on the instance is the list of
    the raw matches of at most 50 characters, in scanning order: on raw
    matches the shape heuristic reduces to the length bound, every raw match
    being upper-case in the sense of [str.isupper]. *)
Theorem accepted_are_short_raw_matches (deduplicate : bool) (self : TagExtractor) :
  tags (extract_all_tags deduplicate self).2
  = filter (fun m => String.length m <= 50) (raw_matches (text self)) /\
  (forall m : string, m ∈ raw_matches (text self) -> isupper m = true).
Proof.
  split; [|intros m; apply raw_match_isupper].
  rewrite extract_all_tags_state. cbn [tags]. unfold accepted_occurrences.
  apply filter_iff_on. intros m Hraw. rewrite (raw_match_accepts _ _ Hraw).
  apply Nat.leb_le.
Qed.

Lemma accepted_are_short_raw_matches_witness :
  "VLV1001"%string ∈ raw_matches (text (init "VLV1001")) /\
  isupper "VLV1001" = true.
Proof.
  assert ("VLV1001"%string ∈ raw_matches (text (init "VLV1001"))) as Hraw.
  { assert (raw_matches (text (init "VLV1001")) = ["VLV1001"; "VLV1001"]%string) as ->
      by (vm_compute; reflexivity).
    left. }
  split; [exact Hraw|].
  exact (proj2 (accepted_are_short_raw_matches true (init "VLV1001")) _ Hraw).
Defined.

End GuardExtras.

(** ** Categories of the matches of each pattern *)
Module CategoryExtras.
Import Str Re Patterns Extractor Spec Order Separation.
Import StrFacts ReFacts ExtractorFacts GuardFacts SeparationFacts.
Local Open Scope list_scope.

Lemma in_lang_lit (p : string) (r : branch) (m : string) :
  InLang (lit p ++ r) m -> exists rest : string, m = (p +:+ rest)%string /\ InLang r rest.
Proof.
  revert m. induction p as [|a p IH]; intros m Hm.
  - exists m. split; [reflexivity | exact Hm].
  - cbn [lit app InLang] in Hm.
    destruct Hm as (b & m' & -> & Hall & Hlo & Hhi & Hm'). simpl in Hhi.
    destruct b as [|a' [|a'' b]]; simpl in Hlo, Hhi; try lia.
    cbn [all] in Hall. rewrite andb_true_r in Hall. apply Ascii.eqb_eq in Hall. subst a'.
    destruct (IH _ Hm') as (rest & -> & Hr). exists rest. split; [reflexivity | exact Hr].
Qed.

Lemma startswith_app (p rest : string) : startswith p (p +:+ rest) = true.
Proof.
  unfold startswith. induction p as [|a p IH]; [rewrite app_nil_l; now destruct rest|].
  rewrite app_cons. simpl. destruct (ascii_dec a a); [exact IH | contradiction].
Qed.

Lemma contains_char (x : ascii) (m : string) :
  1 <= count (Ascii.eqb x) m -> contains (String x EmptyString) m = true.
Proof.
  induction m as [|a m IH]; simpl; [lia|].
  destruct (ascii_dec x a) as [->|Hne].
  - intros _. now destruct m.
  - destruct (Ascii.eqb_spec x a) as [->|_]; [contradiction|].
    intros H. apply IH. simpl in H. exact H.
Qed.

Lemma findall_single (b : branch) (txt m : string) :
  m ∈ findall [b] txt -> InLang b m.
Proof.
  intros (b' & Hb & Hl)%findall_sound.
  apply elem_of_cons in Hb as [->|Hb]; [exact Hl | now apply elem_of_nil in Hb].
Qed.

Lemma no_hyphen_not_instrument (m : string) :
  count (Ascii.eqb "-") m = 0 -> instrument_rule m = false.
Proof.
  intros H. unfold instrument_rule.
  assert (length (split "-" m) = 1) as Hs.
  { pose proof (GuardClaims.split_length "-" m) as E. rewrite E, H. reflexivity. }
  rewrite Hs. apply andb_false_r.
Qed.

(** X6: a match of either pump pattern is categorised Pump, a match of the
    valve pattern Valve, a match of the instrument pattern Instrument, and a
    match of the rock-trap pattern Equipment. *)
Theorem category_by_pattern (txt m : string) :
  (m ∈ findall PUMP_PATTERN_STORM txt -> category_of m = Pump) /\
  (m ∈ findall PUMP_PATTERN_SHORT txt -> category_of m = Pump) /\
  (m ∈ findall VALVE_PATTERN txt -> category_of m = Valve) /\
  (m ∈ findall INSTRUMENT_PATTERN txt -> category_of m = Instrument) /\
  (m ∈ findall ROCK_TRAP_PATTERN txt -> category_of m = Equipment).
Proof.
  split; [|split; [|split; [|split]]].
  - intros Hl%findall_single. apply in_lang_lit in Hl as (rest & -> & _).
    unfold category_of. cbn [chain first_match]. unfold pump_rule.
    now rewrite startswith_app.
  - intros Hl%findall_single.
    pose proof (in_lang_min_length _ _ Hl) as Hmin.
    pose proof (in_lang_max_length _ _ 5 Hl eq_refl) as Hmax.
    change (min_length _) with 5 in Hmin.
    cbn [app InLang] in Hl. apply in_lang_lit in Hl as (rest & -> & _).
    unfold category_of. cbn [chain first_match]. unfold pump_rule.
    rewrite (startswith_app "P" rest).
    assert ((String.length ("P" +:+ rest) =? 5)%nat = true) as -> by (apply Nat.eqb_eq; lia).
    now rewrite orb_true_r.
  - intros Hl%findall_single. apply in_lang_lit in Hl as (rest & -> & _).
    unfold category_of. cbn [chain first_match]. unfold valve_rule.
    rewrite (startswith_app "VLV" rest). reflexivity.
  - intros Hm. pose proof (findall_single _ _ _ Hm) as Hl.
    pose proof (in_lang_min_in (Ascii.eqb "-") _ _ Hl) as Hh.
    change (min_in _ _) with 3 in Hh.
    assert (instrument_rule m = true) as Hi.
    { unfold instrument_rule. rewrite contains_char by lia.
      rewrite GuardClaims.split_length. apply Nat.leb_le. lia. }
    assert (m ∈ raw_matches txt) as Hraw.
    { apply elem_of_raw_matches. exists ("instrument"%string, INSTRUMENT_PATTERN).
      split; [|exact Hm]. unfold COMPILED_PATTERNS. do 4 right. left. }
    destruct (GuardClaims.raw_instrument_not_pump_or_valve _ _ Hraw Hi) as [Hp Hv].
    unfold category_of. cbn [chain first_match]. now rewrite Hp, Hv, Hi.
  - intros Hl%findall_single.
    pose proof (in_lang_bound_char "-" _ _ 0 Hl eq_refl) as Hh.
    apply in_lang_lit in Hl as (rest & -> & _).
    unfold category_of. cbn [chain first_match].
    rewrite no_hyphen_not_instrument by lia. reflexivity.
Qed.

Lemma category_by_pattern_witness :
  "ROCK TRAP 12"%string ∈ findall ROCK_TRAP_PATTERN "at ROCK TRAP 12, P1021" /\
  category_of "ROCK TRAP 12" = Equipment /\
  "P1021"%string ∈ findall PUMP_PATTERN_SHORT "at ROCK TRAP 12, P1021" /\
  category_of "P1021" = Pump.
Proof.
  assert ("ROCK TRAP 12"%string ∈ findall ROCK_TRAP_PATTERN "at ROCK TRAP 12, P1021") as H1.
  { assert (findall ROCK_TRAP_PATTERN "at ROCK TRAP 12, P1021" = ["ROCK TRAP 12"%string]) as ->
      by (vm_compute; reflexivity).
    left. }
  assert ("P1021"%string ∈ findall PUMP_PATTERN_SHORT "at ROCK TRAP 12, P1021") as H2.
  { assert (findall PUMP_PATTERN_SHORT "at ROCK TRAP 12, P1021" = ["P1021"%string]) as ->
      by (vm_compute; reflexivity).
    left. }
  pose proof (category_by_pattern "at ROCK TRAP 12, P1021" "ROCK TRAP 12")
    as (_ & _ & _ & _ & Hrock).
  pose proof (category_by_pattern "at ROCK TRAP 12, P1021" "P1021")
    as (_ & Hshort & _).
  split; [exact H1|]. split; [exact (Hrock H1)|]. split; [exact H2 | exact (Hshort H2)].
Defined.

(** X7: every list of [get_tags_by_type] is strictly ascending, so it holds
    no tag twice. *)
Theorem categories_strictly_ascending (self : TagExtractor) (c : category) :
  StronglySorted lt (field c (get_tags_by_type self)) /\
  NoDup (field c (get_tags_by_type self)).
Proof.
  rewrite field_get_tags_by_type.
  assert (NoDup (filter (fun tag => category_of tag = c) (unique (tags self)))) as Hnd
    by (apply NoDup_filter, NoDup_unique).
  split.
  - apply ExtractorExtras.ascending_nodup_strict; [apply ExtractorExtras.sorted_ascending|].
    now rewrite sorted_perm.
  - now rewrite sorted_perm.
Qed.

End CategoryExtras.

(** ** The counter and the shape heuristic *)
Module CountExtras.
Import Str Patterns Extractor Spec Order.
Import StrFacts ReFacts ExtractorFacts GuardFacts.
Local Open Scope list_scope.

Lemma occurrences_cons (k m : string) (l : list string) :
  occurrences k (m :: l) = (if decide (m = k) then 1 else 0) + occurrences k l.
Proof. unfold occurrences. rewrite filter_cons. now destruct (decide (m = k)). Qed.

Lemma occurrences_zero (k : string) (l : list string) : occurrences k l = 0 <-> k ∉ l.
Proof.
  induction l as [|m l IH]; [split; [intros _; apply not_elem_of_nil | reflexivity]|].
  rewrite occurrences_cons, not_elem_of_cons. destruct (decide (m = k)) as [->|Hne].
  - split; [simpl; lia | intros [H _]; congruence].
  - simpl. rewrite IH. split; [intros H; split; [congruence | exact H] | now intros [_ H]].
Qed.

Lemma counter_fold_lookup_exact (ms : list string) (c : gmap string nat) (k : string) :
  fold_left (fun c m => counter_incr m c) ms c !! k
  = match occurrences k ms with
    | 0 => c !! k
    | S n => Some (default 0 (c !! k) + S n)
    end.
Proof.
  revert c. induction ms as [|m ms IH]; intros c; [reflexivity|].
  cbn [fold_left]. rewrite IH, occurrences_cons. unfold counter_incr.
  destruct (decide (m = k)) as [->|Hne].
  - rewrite lookup_insert_eq. cbn [default].
    destruct (occurrences k ms); simpl; f_equal; lia.
  - rewrite lookup_insert_ne by exact Hne. reflexivity.
Qed.

Lemma occurrences_pos (k : string) (l : list string) : k ∈ l -> 1 <= occurrences k l.
Proof.
  intros Hin. destruct (occurrences k l) eqn:E; [|lia].
  apply occurrences_zero in E. contradiction.
Qed.

Lemma first_call_lookup (deduplicate : bool) (t k : string) :
  get_tag_counts (extract_all_tags deduplicate (init t)).2 !! k
  = if decide (k ∈ accepted_occurrences t)
    then Some (occurrences k (accepted_occurrences t))
    else None.
Proof.
  rewrite extract_all_tags_state. unfold get_tag_counts. cbn [tag_counts text init].
  rewrite counter_fold_lookup_exact, lookup_empty. cbn [default].
  destruct (decide (k ∈ accepted_occurrences t)) as [Hin|Hnin].
  - pose proof (occurrences_pos _ _ Hin).
    destruct (occurrences k (accepted_occurrences t)); [lia | reflexivity].
  - apply occurrences_zero in Hnin. now rewrite Hnin.
Qed.

(** X8: after the first call on a fresh instance, [get_tag_counts] has
    exactly the accepted tags as keys and maps each of them to the number of
    its accepted occurrences, which is at least one. *)
Theorem first_call_counts (deduplicate : bool) (t k : string) :
  get_tag_counts (extract_all_tags deduplicate (init t)).2 !! k
  = (if decide (k ∈ accepted_occurrences t)
     then Some (occurrences k (accepted_occurrences t))
     else None) /\
  (k ∈ accepted_occurrences t -> 1 <= occurrences k (accepted_occurrences t)).
Proof. split; [apply first_call_lookup | apply occurrences_pos]. Qed.

Lemma first_call_counts_witness :
  "VLV1001"%string ∈ accepted_occurrences "VLV1001 P1021 VLV1001" /\
  get_tag_counts (extract_all_tags true (init "VLV1001 P1021 VLV1001")).2 !! "VLV1001"%string
  = Some 4 /\
  1 <= occurrences "VLV1001" (accepted_occurrences "VLV1001 P1021 VLV1001").
Proof.
  assert ("VLV1001"%string ∈ accepted_occurrences "VLV1001 P1021 VLV1001") as Hin.
  { assert (accepted_occurrences "VLV1001 P1021 VLV1001"
            = ["P1021"; "VLV1001"; "VLV1001"; "VLV1001"; "VLV1001"]%string) as ->
      by (vm_compute; reflexivity).
    right. left. }
  pose proof (first_call_counts true "VLV1001 P1021 VLV1001" "VLV1001") as [Hlook Hpos].
  split; [exact Hin|]. split; [|exact (Hpos Hin)].
  rewrite Hlook. rewrite decide_True by exact Hin. vm_compute. reflexivity.
Defined.

Lemma count_pos_any (p : ascii -> bool) (s : string) : 1 <= count p s -> any p s = true.
Proof.
  induction s as [|a s IH]; simpl; [lia|].
  destruct (p a); [reflexivity|]. simpl. exact IH.
Qed.

(** X9: [is_likely_tag] accepts no empty string, no string of more than 50
    characters and no string without an upper-case letter; a string of 1 to
    50 characters with an upper-case letter and no lower-case letter is
    accepted whatever digits and punctuation it holds; a string with a
    lower-case letter is accepted only when upper-case letters are more than
    half of its characters. *)
Theorem is_likely_tag_cases (text : string) :
  (is_likely_tag text = true ->
     text <> EmptyString /\ String.length text <= 50 /\ any is_upper_c text = true) /\
  (String.length text <= 50 -> any is_upper_c text = true ->
     any is_lower_c text = false -> is_likely_tag text = true) /\
  (any is_lower_c text = true ->
     (is_likely_tag text = true
      <-> String.length text <= 50 /\ String.length text < 2 * count is_upper_c text)).
Proof.
  rewrite is_likely_tag_spec. unfold shape_heuristic, isupper. split; [|split].
  - intros [Hlen Hshape].
    assert (any is_upper_c text = true) as Hup.
    { destruct Hshape as [[_ H]%andb_prop | H]; [exact H|]. apply count_pos_any. lia. }
    split; [|split; [exact Hlen | exact Hup]].
    intros ->. discriminate.
  - intros Hlen Hup Hlow. split; [exact Hlen|]. left. now rewrite Hup, Hlow.
  - intros Hlow. rewrite Hlow. cbn [negb andb]. split.
    + intros [Hlen [H|H]]; [discriminate | auto].
    + intros [Hlen H]. auto.
Qed.

Lemma is_likely_tag_cases_witness :
  is_likely_tag "ROCK TRAP 1" = true /\
  any is_lower_c "Pump P1" = true /\
  is_likely_tag "Pump P1" = false.
Proof.
  pose proof (is_likely_tag_cases "ROCK TRAP 1") as (_ & Hup & _).
  pose proof (is_likely_tag_cases "Pump P1") as (_ & _ & Hlow).
  split; [apply Hup; [vm_compute; lia | reflexivity | reflexivity]|].
  split; [reflexivity|].
  destruct (is_likely_tag "Pump P1"); [|reflexivity].
  destruct (proj1 (Hlow eq_refl) eq_refl) as [_ H]. vm_compute in H. lia.
Defined.

End CountExtras.

(** ** Further properties of the text extraction pipeline *)
Module PdfExtras.
Import Pdf StrFacts PdfFacts.
Local Open Scope list_scope.

Lemma nonempty_pages (pages : list Page) :
  filter (fun s => s <> EmptyString)
    (map (fun page => default EmptyString (native_text page)) pages)
  = flat_map (fun page => match native_text page with
                          | Some (String a s) => [String a s]
                          | _ => []
                          end) pages.
Proof.
  induction pages as [|p pages IH]; [reflexivity|].
  cbn [map flat_map]. rewrite filter_cons, IH.
  destruct (native_text p) as [[|a s]|]; reflexivity.
Qed.

(** X10: the native text of [extract_text] is the per-page native text of
    [extract_text_by_page] with the empty pages left out and the others
    joined by newlines; with recognition off that is the whole result. *)
Theorem extract_text_joins_pages (w : World) (self : PDFExtractor) (pages : list Page)
    (min_text_threshold : Z) :
  files w (pdf_path self) = Some (Document pages) ->
  exists l : list string,
    extract_text_by_page w self false = Ok l /\
    extract_text w self false min_text_threshold
    = Ok (Str.join nl (filter (fun s => s <> EmptyString) l)).
Proof.
  intros Hf. exists (map (fun page => default EmptyString (native_text page)) pages).
  split.
  - unfold extract_text_by_page, _extract_text_by_page_standard.
    now rewrite (open_document _ _ _ Hf), bind_ok, by_page_standard_loop.
  - unfold extract_text. rewrite (standard_ok _ _ _ Hf), bind_ok, nonempty_pages.
    now destruct (_ <=? _)%Z.
Qed.

Lemma extract_text_joins_pages_witness :
  files (sample_world (Document PdfSamples.three_pages) false) (pdf_path sample_extractor)
  = Some (Document PdfSamples.three_pages) /\
  exists l : list string,
    extract_text_by_page (sample_world (Document PdfSamples.three_pages) false)
      sample_extractor false = Ok l /\
    extract_text (sample_world (Document PdfSamples.three_pages) false)
      sample_extractor false 200
    = Ok (Str.join nl (filter (fun s => s <> EmptyString) l)).
Proof.
  split; [reflexivity|].
  exact (extract_text_joins_pages (sample_world (Document PdfSamples.three_pages) false)
           sample_extractor PdfSamples.three_pages 200 eq_refl).
Defined.

Lemma length_join_ocr (pages : list Page) :
  2 * length pages - 1
  <= String.length
       (Str.join nl (map (fun page => (ocr_block page +:+ nl +:+ ocr_sparse page)%string)
                       pages)).
Proof.
  induction pages as [|p [|q pages] IH].
  - simpl. lia.
  - cbn [map Str.join length]. rewrite !length_app. simpl. lia.
  - change (Str.join nl (map _ (p :: q :: pages)))
      with ((ocr_block p +:+ nl +:+ ocr_sparse p) +:+ nl +:+
            Str.join nl (map (fun page => (ocr_block page +:+ nl +:+ ocr_sparse page)%string)
                           (q :: pages)))%string.
    rewrite !length_app. cbn [length] in *. simpl String.length at 2 4. lia.
Qed.

(** X11: the recognition pass of [extract_text] keeps an entry for every
    page, whatever the engine returns: the combined text of a page always
    holds the newline between the two passes, so the emptiness test drops no
    page, and the recognition text of [n] pages has at least [2n - 1]
    characters.  A text returned through the recognition branch is never
    empty. *)
Theorem ocr_keeps_every_page (w : World) (self : PDFExtractor) (pages : list Page)
    (min_text_threshold : Z) :
  files w (pdf_path self) = Some (Document pages) ->
  engine_available w = true ->
  (Z.of_nat (String.length (native_of pages)) < min_text_threshold)%Z ->
  ocr_pages w pages []
  = Ok (map (fun page => (ocr_block page +:+ nl +:+ ocr_sparse page)%string) pages) /\
  2 * length pages - 1 <= String.length (ocr_of pages) /\
  exists s : string,
    extract_text w self true min_text_threshold = Ok s /\
    String.length s = String.length (native_of pages) + 1 + String.length (ocr_of pages).
Proof.
  intros Hf He Hlt. split; [now rewrite (ocr_pages_available _ _ _ He)|].
  split; [apply length_join_ocr|].
  exists (native_of pages +:+ nl +:+ ocr_of pages)%string. split.
  - unfold extract_text. rewrite (standard_ok _ _ _ Hf), bind_ok.
    apply Z.leb_gt in Hlt. now rewrite Hlt, (ocr_ok _ _ _ Hf He), bind_ok.
  - rewrite !length_app. simpl. lia.
Qed.

Lemma ocr_keeps_every_page_witness :
  files (sample_world (Document PdfSamples.three_pages) true) (pdf_path sample_extractor)
  = Some (Document PdfSamples.three_pages) /\
  ocr_pages (sample_world (Document PdfSamples.three_pages) true) PdfSamples.three_pages []
  = Ok ["VLV1001 P1021" +:+ nl +:+ "P1021"; nl; "VLV1001 P1021" +:+ nl +:+ "P1021"]%string.
Proof.
  split; [reflexivity|].
  apply (ocr_keeps_every_page (sample_world (Document PdfSamples.three_pages) true)
           sample_extractor PdfSamples.three_pages 200 eq_refl eq_refl).
  vm_compute. reflexivity.
Defined.

End PdfExtras.

(** ** The exporter *)
Module CsvExtras.
Import Str Re Patterns Extractor Spec Order Separation Csv.
Import StrFacts ReFacts ExtractorFacts GuardFacts SeparationFacts.
Local Open Scope list_scope.

Lemma join_empty_cons (x : string) (l : list string) :
  Str.join EmptyString (x :: l) = (x +:+ Str.join EmptyString l)%string.
Proof.
  destruct l as [|y l]; [simpl; now rewrite app_empty_r | reflexivity].
Qed.

Lemma write_field_plain (f : string) : any special f = false -> write_field f = f.
Proof. unfold write_field. now intros ->. Qed.

Lemma writerow_one_plain (f : string) :
  f <> EmptyString -> any special f = false -> writerow [f] = (f +:+ crlf)%string.
Proof.
  intros Hne Hp. destruct f as [|a f]; [congruence|].
  unfold writerow. cbn [map Str.join]. now rewrite write_field_plain.
Qed.

Lemma write_rows_plain (tags : list string) (buf : string) :
  Forall (fun f => f <> EmptyString /\ any special f = false) tags ->
  fold_left (fun buf tag => (buf +:+ writerow [tag])%string) tags buf
  = (buf +:+ lines tags)%string.
Proof.
  intros H. revert buf. induction H as [|f tags [Hne Hp] _ IH]; intros buf.
  - simpl. now rewrite app_empty_r.
  - cbn [fold_left]. rewrite IH, (writerow_one_plain _ Hne Hp). unfold lines.
    cbn [map]. now rewrite join_empty_cons, !app_assoc_str.
Qed.

(** No acceptance pattern admits a comma, a double quote or a line break. *)
Lemma compiled_patterns_plain :
  forallb (fun entry : string * regex =>
    forallb (fun b => disjoint (alphabet b) special) entry.2) COMPILED_PATTERNS = true.
Proof. vm_compute. reflexivity. Qed.

Lemma accepted_plain (txt tag : string) :
  tag ∈ accepted_occurrences txt -> tag <> EmptyString /\ any special tag = false.
Proof.
  intros [Hraw _]%elem_of_accepted. split; [exact (GuardExtras.raw_match_nonempty _ _ Hraw)|].
  destruct (raw_match_in_lang _ _ Hraw) as (entry & b & He & Hb & Hl).
  pose proof compiled_patterns_plain as Ht.
  rewrite forallb_forall in Ht. apply list_elem_of_In in He. specialize (Ht _ He).
  rewrite forallb_forall in Ht. apply list_elem_of_In in Hb. specialize (Ht _ Hb).
  exact (GuardExtras.all_disjoint_any _ _ _ Ht (in_lang_alphabet _ _ Hl)).
Qed.

(** X12: exporting what [extract_all_tags] returned writes, after the
    header row when one is asked for, one row per tag in the order of the
    list, each the bare tag followed by CR LF, no tag needing quotes; the
    file at the output path holds exactly that and no other file changes. *)
Theorem export_tags_of_extraction (fs : gmap string string) (deduplicate : bool)
    (self : TagExtractor) (output_path : string) (include_header : bool)
    (header_name : string) :
  export_tags fs (extract_all_tags deduplicate self).1 output_path include_header header_name
    !! output_path
  = Some ((if include_header then writerow [header_name] else EmptyString)
          +:+ lines (extract_all_tags deduplicate self).1)%string /\
  (forall other : string, other <> output_path ->
     export_tags fs (extract_all_tags deduplicate self).1 output_path include_header
       header_name !! other = fs !! other).
Proof.
  unfold export_tags. split.
  - rewrite lookup_insert_eq. f_equal. apply write_rows_plain.
    apply Forall_forall. intros tag Hin. apply elem_of_result in Hin.
    exact (accepted_plain _ _ Hin).
  - intros other Hne. now rewrite lookup_insert_ne.
Qed.

Lemma export_tags_of_extraction_witness :
  export_tags ∅ (extract_all_tags true (init "VLV1001, P1021")).1 "out.csv" true "Tag"
    !! "out.csv"%string
  = Some ("Tag" +:+ crlf +:+ "P1021" +:+ crlf +:+ "VLV1001" +:+ crlf)%string /\
  export_tags ∅ (extract_all_tags true (init "VLV1001, P1021")).1 "out.csv" true "Tag"
    !! "other.csv"%string = None.
Proof.
  pose proof (export_tags_of_extraction ∅ true (init "VLV1001, P1021") "out.csv" true "Tag")
    as [Hfile Hother].
  split.
  - rewrite Hfile. vm_compute. reflexivity.
  - rewrite (Hother "other.csv"%string) by discriminate. reflexivity.
Defined.

(** *** Rows with counts *)

Lemma ltb_trichotomy (x y : string) :
  String.ltb x y = true \/ x = y \/ String.ltb y x = true.
Proof.
  unfold String.ltb. rewrite (String.compare_antisym y x).
  destruct (String.compare x y) eqn:E; simpl; auto.
  right. left. now apply String.compare_eq_iff.
Qed.

#[local] Instance item_le_total : Total item_le.
Proof.
  intros [k1 v1] [k2 v2]. unfold item_le. simpl.
  destruct (ltb_trichotomy k1 k2) as [H|[->|H]]; auto.
  destruct (Nat.le_ge_cases v1 v2); auto.
Qed.

#[local] Instance item_le_trans : Transitive item_le.
Proof.
  intros [k1 v1] [k2 v2] [k3 v3]. unfold item_le. simpl.
  intros [H12|[-> H12]] [H23|[-> H23]]; auto.
  - left. exact (ExtractorExtras.ltb_trans _ _ _ H12 H23).
  - right. split; [reflexivity | lia].
Qed.

#[local] Instance item_le_antisym : AntiSymm eq item_le.
Proof.
  intros [k1 v1] [k2 v2]. unfold item_le. simpl.
  intros [H12|[-> H12]] [H21|[E H21]].
  - pose proof (ExtractorExtras.ltb_trans _ _ _ H12 H21) as H.
    rewrite ExtractorExtras.ltb_irrefl in H. discriminate.
  - subst. rewrite ExtractorExtras.ltb_irrefl in H12. discriminate.
  - rewrite ExtractorExtras.ltb_irrefl in H21. discriminate.
  - f_equal. lia.
Qed.

Lemma items_ascending (f : string -> nat) (keys : list string) :
  StronglySorted lt keys -> StronglySorted item_le (map (fun k => (k, f k)) keys).
Proof.
  induction 1 as [|k keys Hs IH Hk]; [constructor|].
  cbn [map]. constructor; [exact IH|].
  rewrite Forall_forall in Hk. apply Forall_forall. intros [k' v'] Hin.
  apply list_elem_of_In, in_map_iff in Hin as (k'' & [= <- <-] & Hin).
  left. apply Hk. now apply list_elem_of_In.
Qed.

(** The sorted items of the counter of a first call. *)
Lemma sorted_items_first_call (d : bool) (t : string) :
  merge_sort item_le (map_to_list (get_tag_counts (extract_all_tags d (init t)).2))
  = map (fun k => (k, occurrences k (accepted_occurrences t)))
      (Str.sorted (unique (accepted_occurrences t))).
Proof.
  apply (StronglySorted_unique item_le).
  - apply StronglySorted_merge_sort; apply _.
  - apply items_ascending, ExtractorExtras.sorted_unique_strict.
  - rewrite merge_sort_Permutation. apply NoDup_Permutation.
    + apply NoDup_map_to_list.
    + apply NoDup_fmap_2; [intros k1 k2 [= E]; exact E|].
      rewrite sorted_perm. apply NoDup_unique.
    + intros [k v]. rewrite elem_of_map_to_list.
      rewrite (CountExtras.first_call_lookup d t k).
      rewrite list_elem_of_fmap. split.
      * destruct (decide (k ∈ accepted_occurrences t)) as [Hin|]; [|discriminate].
        intros [= <-]. exists k. split; [reflexivity|].
        now rewrite elem_of_sorted, elem_of_unique.
      * intros (k' & [= -> ->] & Hin).
        rewrite elem_of_sorted, elem_of_unique in Hin.
        now rewrite decide_True.
Qed.

Lemma pretty_N_go_digits (x : N) (s : string) :
  all is_digit_c s = true -> all is_digit_c (pretty_N_go x s) = true.
Proof.
  revert s. induction (N.lt_wf_0 x) as [x _ IH]; intros s Hs.
  assert (x = 0 \/ 0 < x)%N as [->|Hx] by lia.
  - now rewrite pretty_N_go_0.
  - rewrite pretty_N_go_step by exact Hx. apply IH; [now apply N.div_lt|].
    cbn [all]. rewrite Hs, andb_true_r.
    unfold pretty_N_char. repeat case_match; reflexivity.
Qed.

Lemma pretty_nat_plain (n : nat) : any special (pretty n) = false.
Proof.
  assert (all is_digit_c (pretty n) = true) as Hd.
  { unfold pretty, pretty_nat, pretty, pretty_N.
    destruct (decide (N.of_nat n = 0%N)); [reflexivity|].
    now apply pretty_N_go_digits. }
  apply (GuardExtras.all_disjoint_any is_digit_c); [vm_compute; reflexivity | exact Hd].
Qed.

Lemma writerow_two_plain (f g : string) :
  f <> EmptyString -> any special f = false -> any special g = false ->
  writerow [f; g] = (f +:+ "," +:+ g +:+ crlf)%string.
Proof.
  intros Hne Hf Hg. destruct f as [|a f]; [congruence|].
  unfold writerow. cbn [map Str.join].
  now rewrite (write_field_plain _ Hf), (write_field_plain _ Hg), !app_assoc_str.
Qed.

Lemma write_count_rows (f : string -> nat) (keys : list string) (buf : string) :
  Forall (fun k => k <> EmptyString /\ any special k = false) keys ->
  fold_left (fun buf item => (buf +:+ writerow [item.1; pretty item.2])%string)
    (map (fun k => (k, f k)) keys) buf
  = (buf +:+ Str.join EmptyString
               (map (fun k => (k +:+ "," +:+ pretty (f k) +:+ crlf)%string) keys))%string.
Proof.
  intros H. revert buf. induction H as [|k keys [Hne Hp] _ IH]; intros buf.
  - simpl. now rewrite app_empty_r.
  - cbn [map fold_left fst snd].
    rewrite IH, (writerow_two_plain _ _ Hne Hp (pretty_nat_plain _)).
    now rewrite join_empty_cons, !app_assoc_str.
Qed.

(** X13: exporting the counts of a first extraction writes, after the
    header row when one is asked for, one row per distinct accepted tag, in
    the ascending order in which [extract_all_tags] lists them with
    [deduplicate] set, each row the tag, a comma, the number of its accepted
    occurrences and CR LF. *)
Theorem export_counts_of_extraction (fs : gmap string string) (deduplicate : bool)
    (t output_path : string) (include_header : bool) :
  export_tags_with_counts fs (get_tag_counts (extract_all_tags deduplicate (init t)).2)
    output_path include_header !! output_path
  = Some ((if include_header then writerow ["Tag"; "Count"]%string else EmptyString)
          +:+ Str.join EmptyString
                (map (fun tag =>
                        (tag +:+ "," +:+ pretty (occurrences tag (accepted_occurrences t))
                         +:+ crlf)%string)
                   (extract_all_tags true (init t)).1))%string.
Proof.
  unfold export_tags_with_counts. rewrite lookup_insert_eq. f_equal.
  rewrite sorted_items_first_call, extract_all_tags_result. cbn [text init].
  apply write_count_rows. apply Forall_forall. intros k Hin.
  rewrite elem_of_sorted, elem_of_unique in Hin. exact (accepted_plain _ _ Hin).
Qed.

End CsvExtras.

(** ** The window's worker *)
Module GuiExtras.
Import Extractor Spec Order Gui ExtractorFacts.
Local Open Scope list_scope.

(** X14: when the pipeline returns a text, the worker leaves in the window
    the strictly ascending list of the distinct accepted tags of that text
    and its summary, enables the export button, and reports in the status
    label the length of that list. *)
Theorem worker_success (w : Pdf.World) (self : MainWindow) (path : string)
    (e : Pdf.PDFExtractor) (text : string) :
  pdf_path self = Some path ->
  Pdf.init w path = Pdf.Ok e ->
  Pdf.extract_text w e true 200 = Pdf.Ok text ->
  extracted_tags (_extraction_worker w self)
  = (extract_all_tags true (Extractor.init text)).1 /\
  StronglySorted lt (extracted_tags (_extraction_worker w self)) /\
  tag_summary (_extraction_worker w self)
  = Some (get_summary (extract_all_tags true (Extractor.init text)).2) /\
  status_label (_extraction_worker w self)
  = ("Extraction complete! Found "
     +:+ pretty (length (extracted_tags (_extraction_worker w self)))
     +:+ " unique tags")%string /\
  export_enabled (_extraction_worker w self) = true /\
  results_text (_extraction_worker w self)
  = display_text (extract_all_tags true (Extractor.init text)).1
      (get_summary (extract_all_tags true (Extractor.init text)).2).
Proof.
  intros Hp Hi Ht. unfold _extraction_worker.
  cbn [pdf_path set_status]. rewrite Hp.
  change (Pdf.Ok path ≫= _) with (Pdf.init w path ≫= fun pdf_extractor =>
                                    Pdf.extract_text w pdf_extractor true 200).
  rewrite Hi.
  change (Pdf.Ok e ≫= _) with (Pdf.extract_text w e true 200). rewrite Ht.
  cbn [extracted_tags tag_summary status_label export_enabled results_text
       set_status set_results _display_results].
  split; [reflexivity|]. split.
  { rewrite extract_all_tags_result. apply ExtractorExtras.sorted_unique_strict. }
  split; [reflexivity|]. split; [|split; reflexivity].
  rewrite extract_all_tags_result, extract_all_tags_state.
  unfold get_summary. cbn [total_unique tags].
  now rewrite (Permutation_length (sorted_perm _)).
Qed.

Lemma worker_success_witness :
  status_label
    (_extraction_worker (Pdf.sample_world (Pdf.Document [Pdf.sample_page]) true) sample_window)
  = "Extraction complete! Found 2 unique tags"%string /\
  extracted_tags
    (_extraction_worker (Pdf.sample_world (Pdf.Document [Pdf.sample_page]) true) sample_window)
  = ["P1021"; "VLV1001"]%string.
Proof.
  pose proof (worker_success (Pdf.sample_world (Pdf.Document [Pdf.sample_page]) true)
                sample_window "drawing.pdf" Pdf.sample_extractor _
                eq_refl eq_refl eq_refl)
    as (Htags & _ & _ & Hstatus & _).
  split.
  - rewrite Hstatus, Htags. vm_compute. reflexivity.
  - rewrite Htags. vm_compute. reflexivity.
Defined.

(** X15: when the file is missing or cannot be parsed, or the recognition
    engine fails, the worker changes the status label to the error text and
    nothing else: the tags, the summary, the results box and the state of the
    export button stay those of the previous extraction. *)
Theorem worker_failure (w : Pdf.World) (self : MainWindow) (path : string)
    (err : Pdf.error) :
  pdf_path self = Some path ->
  (Pdf.init w path = Pdf.Raise err \/
   exists e, Pdf.init w path = Pdf.Ok e /\ Pdf.extract_text w e true 200 = Pdf.Raise err) ->
  _extraction_worker w self = set_status "Error during extraction" self.
Proof.
  intros Hp Herr. unfold _extraction_worker. cbn [pdf_path set_status]. rewrite Hp.
  change (Pdf.Ok path ≫= _) with (Pdf.init w path ≫= fun pdf_extractor =>
                                    Pdf.extract_text w pdf_extractor true 200).
  destruct Herr as [Hi | (e & Hi & Ht)]; rewrite Hi.
  - reflexivity.
  - change (Pdf.Ok e ≫= _) with (Pdf.extract_text w e true 200). now rewrite Ht.
Qed.

Lemma worker_failure_witness :
  _extraction_worker (Pdf.sample_world (Pdf.Document [Pdf.sample_page]) false) used_window
  = {| pdf_path := Some "drawing.pdf"%string; extracted_tags := ["KD1"%string];
       tag_summary := None; status_label := "Error during extraction";
       results_text := "old"; export_enabled := true |}.
Proof.
  apply (worker_failure (Pdf.sample_world (Pdf.Document [Pdf.sample_page]) false)
           used_window "drawing.pdf" Pdf.ExtractionUnavailable eq_refl).
  right. exists Pdf.sample_extractor. split; reflexivity.
Defined.

End GuiExtras.

(** ** What the pipeline does not consult *)
Module PdfFrame.
Import Pdf PdfFacts.
Local Open Scope list_scope.

(** X16: with recognition off the pipeline depends on the file alone: two
    environments that hold the same file at the extractor's path, whatever
    the state of the recognition engine in each, give the same result for
    [extract_text], [extract_text_by_page] and [get_page_count], and that
    result is never [ExtractionUnavailable]. *)
Theorem no_ocr_ignores_engine (w w' : World) (self : PDFExtractor)
    (min_text_threshold : Z) :
  files w (pdf_path self) = files w' (pdf_path self) ->
  extract_text w self false min_text_threshold
  = extract_text w' self false min_text_threshold /\
  extract_text_by_page w self false = extract_text_by_page w' self false /\
  get_page_count w self = get_page_count w' self /\
  extract_text w self false min_text_threshold <> Raise ExtractionUnavailable /\
  extract_text_by_page w self false <> Raise ExtractionUnavailable /\
  get_page_count w self <> Raise ExtractionUnavailable.
Proof.
  intros Hf.
  assert (open w self = open w' self) as Ho by (unfold open; now rewrite Hf).
  unfold extract_text, extract_text_by_page, _extract_text_by_page_standard,
    _extract_text_standard, get_page_count. rewrite <- Ho.
  split; [reflexivity|]. split; [reflexivity|]. split; [reflexivity|].
  unfold open. destruct (files w (pdf_path self)) as [[|pages]|];
    rewrite ?bind_ok, ?bind_raise; repeat split; try discriminate.
  now destruct (_ <=? _)%Z.
Qed.

Lemma no_ocr_ignores_engine_witness :
  extract_text (sample_world (Document [sample_page]) true) sample_extractor false 200
  = extract_text (sample_world (Document [sample_page]) false) sample_extractor false 200.
Proof.
  exact (proj1 (no_ocr_ignores_engine (sample_world (Document [sample_page]) true)
                  (sample_world (Document [sample_page]) false) sample_extractor 200
                  eq_refl)).
Defined.

End PdfFrame.

(** ** Tags are pieces of the text *)
Module SubstringExtras.
Import Str Re Patterns Extractor Spec.
Import StrFacts ReFacts ExtractorFacts GuardFacts.
Local Open Scope list_scope.

Lemma contains_unfold (sub s : string) :
  contains sub s
  = String.prefix sub s || match s with
                           | EmptyString => false
                           | String _ s' => contains sub s'
                           end.
Proof. destruct s; reflexivity. Qed.

Lemma contains_middle (pre x post : string) :
  contains x (pre +:+ x +:+ post) = true.
Proof.
  induction pre as [|a pre IH].
  - rewrite app_nil_l, contains_unfold.
    change (String.prefix x (x +:+ post)) with (startswith x (x +:+ post)).
    now rewrite CategoryExtras.startswith_app.
  - rewrite app_cons, contains_unfold, IH. apply orb_true_r.
Qed.

Lemma scan_substring (re : regex) (prev : option ascii) (pending : nat) (s x : string) :
  x ∈ scan re prev pending s ->
  exists pre post : string, s = (pre +:+ x +:+ post)%string.
Proof.
  revert prev pending. induction s as [|a s IH]; intros prev pending Hx.
  - now apply elem_of_nil in Hx.
  - assert (forall p n, x ∈ scan re p n s ->
              exists pre post : string, String a s = (pre +:+ x +:+ post)%string) as Hrec.
    { intros p n H. destruct (IH _ _ H) as (pre & post & ->).
      exists (String a pre), post. reflexivity. }
    cbn [scan] in Hx. destruct pending as [|k]; [|exact (Hrec _ _ Hx)].
    destruct (m_regex re prev (String a s)) as [rest|] eqn:Hm; [|exact (Hrec _ _ Hx)].
    apply elem_of_cons in Hx as [->|Hx]; [|exact (Hrec _ _ Hx)].
    apply m_regex_sound in Hm as (b & _ & Hb).
    apply m_items_sound in Hb as (m & Em & _).
    exists EmptyString, rest. rewrite Em, matched_app. reflexivity.
Qed.

(** X17: every tag that [extract_all_tags] returns, in either mode, occurs
    in the text of the instance as it stands: the engine returns pieces of
    the text, unchanged. *)
Theorem returned_tags_occur_in_text (deduplicate : bool) (self : TagExtractor)
    (tag : string) :
  tag ∈ (extract_all_tags deduplicate self).1 ->
  contains tag (text self) = true /\
  exists pre post : string, text self = (pre +:+ tag +:+ post)%string.
Proof.
  intros Hin. apply elem_of_result, elem_of_accepted in Hin as [Hraw _].
  apply elem_of_raw_matches in Hraw as (entry & _ & Hm).
  destruct (scan_substring _ _ _ _ _ Hm) as (pre & post & E).
  split; [|eauto]. rewrite E. apply contains_middle.
Qed.

Lemma returned_tags_occur_in_text_witness :
  "P1021"%string ∈ (extract_all_tags true (init "pump P1021, valve VLV1001")).1 /\
  contains "P1021" "pump P1021, valve VLV1001" = true.
Proof.
  assert ("P1021"%string ∈ (extract_all_tags true (init "pump P1021, valve VLV1001")).1)
    as Hin.
  { assert ((extract_all_tags true (init "pump P1021, valve VLV1001")).1
            = ["P1021"; "VLV1001"]%string) as -> by (vm_compute; reflexivity).
    left. }
  split; [exact Hin|].
  exact (proj1 (returned_tags_occur_in_text true (init "pump P1021, valve VLV1001")
                  "P1021"%string Hin)).
Defined.

(** X18: the summary after an extraction counts at most as many unique
    tags as instances, and the deduplicated list is empty exactly when no
    occurrence was accepted. *)
Theorem summary_unique_at_most_instances (deduplicate : bool) (self : TagExtractor) :
  total_unique (get_summary (extract_all_tags deduplicate self).2)
  <= total_instances (get_summary (extract_all_tags deduplicate self).2) /\
  (total_unique (get_summary (extract_all_tags deduplicate self).2) = 0
   <-> total_instances (get_summary (extract_all_tags deduplicate self).2) = 0) /\
  ((extract_all_tags true self).1 = []
   <-> total_instances (get_summary (extract_all_tags deduplicate self).2) = 0).
Proof.
  rewrite extract_all_tags_result, extract_all_tags_state.
  unfold get_summary. cbn [total_unique total_instances tags].
  set (acc := accepted_occurrences (text self)).
  assert (length (unique acc) <= length acc) as Hle.
  { apply submseteq_length, NoDup_submseteq; [apply NoDup_unique|].
    intros x. now rewrite elem_of_unique. }
  assert (length (unique acc) = 0 <-> length acc = 0) as Hz.
  { split; [|lia]. intros H0. destruct acc as [|x acc'] eqn:E; [reflexivity|].
    assert (x ∈ unique (x :: acc')) as Hx by (apply elem_of_unique; left).
    apply length_zero_iff_nil in H0. rewrite H0 in Hx. now apply elem_of_nil in Hx. }
  split; [exact Hle|]. split; [exact Hz|].
  rewrite <- Hz. split.
  - intros H. rewrite <- (Permutation_length (sorted_perm (unique acc))), H. reflexivity.
  - intros H. apply length_zero_iff_nil.
    now rewrite (Permutation_length (sorted_perm (unique acc))).
Qed.

End SubstringExtras.

(** ** Categories of the generic and the vendor matches *)
Module CategoryExtras2.
Import Str Re Patterns Extractor Spec Separation.
Import StrFacts ReFacts ExtractorFacts GuardFacts SeparationFacts.
Local Open Scope list_scope.

Lemma startswith_inv (p m : string) :
  startswith p m = true -> exists rest : string, m = (p +:+ rest)%string.
Proof.
  unfold startswith. revert m. induction p as [|a p IH]; intros m H.
  - exists m. reflexivity.
  - destruct m as [|b m]; [discriminate|]. simpl in H.
    destruct (ascii_dec a b) as [->|]; [|discriminate].
    destruct (IH _ H) as (rest & ->). exists rest. reflexivity.
Qed.

Lemma contains_inv (sub m : string) :
  contains sub m = true -> exists pre post : string, m = (pre +:+ sub +:+ post)%string.
Proof.
  induction m as [|a m IH]; rewrite SubstringExtras.contains_unfold.
  - rewrite orb_false_r. intros H.
    destruct (startswith_inv _ _ H) as (rest & E). exists EmptyString, rest. exact E.
  - intros [H|H]%orb_prop.
    + destruct (startswith_inv _ _ H) as (rest & E). exists EmptyString, rest. exact E.
    + destruct (IH H) as (pre & post & ->). exists (String a pre), post. reflexivity.
Qed.

(** A string over an alphabet has no prefix and no piece outside it. *)
Lemma alphabet_excludes_prefix (A : ascii -> bool) (p m : string) :
  all A m = true -> all A p = false -> startswith p m = false.
Proof.
  intros Hm Hp. destruct (startswith p m) eqn:E; [|reflexivity].
  destruct (startswith_inv _ _ E) as (rest & ->).
  rewrite all_app in Hm. apply andb_prop in Hm as [Hm _]. congruence.
Qed.

Lemma few_letters_exclude_piece (c : ascii -> bool) (sub m : string) :
  count c m < count c sub -> contains sub m = false.
Proof.
  intros Hlt. destruct (contains sub m) eqn:E; [|reflexivity].
  destruct (contains_inv _ _ E) as (pre & post & ->).
  rewrite !count_app in Hlt. lia.
Qed.

(** A vendor code is two upper-case letters and then digits. *)
Lemma vendor_shape (m : string) :
  InLang [WordB; Cls upper_AZ 2 (Some 2); Cls is_digit_c 1 (Some 3); WordB] m ->
  exists (a1 a2 d : ascii) (ds : string),
    m = String a1 (String a2 (String d ds)) /\
    is_digit_c d = true /\ all is_digit_c ds = true /\
    upper_AZ a1 = true /\ upper_AZ a2 = true.
Proof.
  cbn [InLang].
  intros (u & m1 & -> & Hu & Hlo & Hhi & dg & m2 & -> & Hd & Hlo2 & _ & ->).
  simpl in Hhi.
  destruct u as [|a1 [|a2 [|a3 u]]]; simpl in Hlo, Hhi; try lia.
  destruct dg as [|d ds]; simpl in Hlo2; [lia|].
  cbn [all] in Hu, Hd. apply andb_prop in Hd as [Hd Hds].
  apply andb_prop in Hu as [Hu1 Hu2]. rewrite andb_true_r in Hu2.
  exists a1, a2, d, ds. rewrite app_empty_r. auto.
Qed.

Lemma digits_not_upper (s : string) : all is_digit_c s = true -> count is_upper_c s = 0.
Proof.
  apply count_none. intros a Ha.
  exact (disjoint_spec is_digit_c is_upper_c a ltac:(vm_compute; reflexivity) Ha).
Qed.

(** X22: a match of the generic pattern is never categorised Pump or
    Instrument: it is a Valve when it starts with VLV, else Equipment when it
    holds TRAP or TANK, else Other.  A match of the vendor pattern is never
    Valve, Instrument or Equipment: it is a Pump when it starts with P and
    has five characters, else Other. *)
Theorem category_of_generic_and_vendor (txt m : string) :
  (m ∈ findall GENERIC_TAG_PATTERN txt ->
     category_of m
     = if valve_rule m then Valve else if equipment_rule m then Equipment else Other) /\
  (m ∈ findall VENDOR_EQUIPMENT_PATTERN txt ->
     category_of m
     = if startswith "P" m && (String.length m =? 5)%nat then Pump else Other).
Proof.
  split.
  - intros Hl%CategoryExtras.findall_single.
    pose proof (in_lang_min_length _ _ Hl) as Hmin. change (min_length _) with 7 in Hmin.
    pose proof (in_lang_bound_char "-" _ _ 0 Hl eq_refl) as Hh.
    pose proof (in_lang_alphabet _ _ Hl) as Ha.
    unfold category_of. cbn [chain first_match]. unfold pump_rule.
    rewrite (alphabet_excludes_prefix _ "STORM_P" _ Ha) by (vm_compute; reflexivity).
    assert ((String.length m =? 5)%nat = false) as -> by (apply Nat.eqb_neq; lia).
    rewrite andb_false_r. cbn [orb].
    rewrite CategoryExtras.no_hyphen_not_instrument by lia. reflexivity.
  - intros Hl%CategoryExtras.findall_single.
    pose proof (in_lang_bound_char "-" _ _ 0 Hl eq_refl) as Hh.
    pose proof (in_lang_alphabet _ _ Hl) as Ha.
    destruct (vendor_shape _ Hl) as (a1 & a2 & d & ds & -> & Hd & Hds & Hu1 & Hu2).
    unfold category_of. cbn [chain first_match]. unfold pump_rule.
    rewrite (alphabet_excludes_prefix _ "STORM_P" _ Ha) by (vm_compute; reflexivity).
    cbn [orb].
    assert (valve_rule (String a1 (String a2 (String d ds))) = false) as ->.
    { unfold valve_rule, startswith.
      destruct (String.prefix "VLV" _) eqn:E; [|reflexivity].
      apply prefix_correct in E. simpl in E. injection E as _ _ E3 _.
      rewrite E3 in Hd. vm_compute in Hd. discriminate. }
    rewrite CategoryExtras.no_hyphen_not_instrument by lia.
    assert (count is_upper_c (String a1 (String a2 (String d ds))) <= 2) as Hc.
    { cbn [count].
      rewrite (disjoint_spec is_digit_c is_upper_c d ltac:(vm_compute; reflexivity) Hd).
      rewrite (digits_not_upper _ Hds). destruct (is_upper_c a1), (is_upper_c a2); simpl; lia. }
    unfold equipment_rule.
    rewrite (few_letters_exclude_piece is_upper_c "TRAP")
      by (change (count is_upper_c "TRAP") with 4; lia).
    rewrite (few_letters_exclude_piece is_upper_c "TANK")
      by (change (count is_upper_c "TANK") with 4; lia).
    cbn [orb]. now destruct (startswith "P" _ && _).
Qed.

Lemma category_of_generic_and_vendor_witness :
  "PX123"%string ∈ findall VENDOR_EQUIPMENT_PATTERN "unit PX123 and TANK1001" /\
  category_of "PX123" = Pump /\
  "TANK1001"%string ∈ findall GENERIC_TAG_PATTERN "unit PX123 and TANK1001" /\
  category_of "TANK1001" = Equipment.
Proof.
  assert ("PX123"%string ∈ findall VENDOR_EQUIPMENT_PATTERN "unit PX123 and TANK1001") as H1.
  { assert (findall VENDOR_EQUIPMENT_PATTERN "unit PX123 and TANK1001" = ["PX123"%string])
      as -> by (vm_compute; reflexivity).
    left. }
  assert ("TANK1001"%string ∈ findall GENERIC_TAG_PATTERN "unit PX123 and TANK1001") as H2.
  { assert (findall GENERIC_TAG_PATTERN "unit PX123 and TANK1001" = ["TANK1001"%string])
      as -> by (vm_compute; reflexivity).
    left. }
  pose proof (category_of_generic_and_vendor "unit PX123 and TANK1001" "PX123") as [_ Hv].
  pose proof (category_of_generic_and_vendor "unit PX123 and TANK1001" "TANK1001") as [Hg _].
  split; [exact H1|]. split; [rewrite (Hv H1); reflexivity|].
  split; [exact H2 | rewrite (Hg H2); reflexivity].
Defined.

End CategoryExtras2.

(** ** Per-page extraction without the engine *)
Module PdfByPageExtras.
Import Pdf PdfFacts.
Local Open Scope list_scope.

(** X21: with the recognition engine unavailable, [extract_text_by_page]
    with [use_ocr] set fails with [ExtractionUnavailable] on every document
    that has a page, returning no page text at all, and returns the empty
    list on a document without pages; with [use_ocr] off it still returns
    the native text of every page. *)
Theorem by_page_engine_unavailable (w : World) (self : PDFExtractor) (pages : list Page) :
  files w (pdf_path self) = Some (Document pages) ->
  engine_available w = false ->
  extract_text_by_page w self true
  = match pages with
    | [] => Ok []
    | _ :: _ => Raise ExtractionUnavailable
    end /\
  extract_text_by_page w self false
  = Ok (map (fun page => default EmptyString (native_text page)) pages).
Proof.
  intros Hf He.
  unfold extract_text_by_page, _extract_text_by_page_ocr, _extract_text_by_page_standard.
  rewrite (open_document _ _ _ Hf), !bind_ok. split.
  - destruct pages as [|p pages]; [reflexivity|].
    cbn [ocr_by_page]. unfold image_to_string. now rewrite He.
  - now rewrite by_page_standard_loop.
Qed.

Lemma by_page_engine_unavailable_witness :
  extract_text_by_page (sample_world (Document PdfSamples.three_pages) false)
    sample_extractor true = Raise ExtractionUnavailable /\
  extract_text_by_page (sample_world (Document PdfSamples.three_pages) false)
    sample_extractor false = Ok ["VLV1001"%string; EmptyString; "VLV1001"%string].
Proof.
  exact (by_page_engine_unavailable (sample_world (Document PdfSamples.three_pages) false)
           sample_extractor PdfSamples.three_pages eq_refl eq_refl).
Defined.

End PdfByPageExtras.
